(** * caddy-cf: dynamic remote-IP matcher and Cloudflare range source

    A shallow embedding of the matcher [MatchDynamicRemoteIP] and of the
    range source [CloudflareIPRange] of [plugins/cloudflare_source.go],
    both of package [plugins], together with the
    parts of the Go standard library they call ([net.SplitHostPort],
    [strings.Cut], [net/netip], [bufio.Scanner], [strconv.Atoi]).

    Go strings are byte sequences; they are embedded as [string] (a list of
    8-bit [ascii]).  Go's [int] is 64 bits wide.  Fallible functions return
    a sum: [inl] for the value, [inr] for the Go [error]. *)

From Stdlib Require Import ZArith List String Ascii Bool Lia Permutation.
Import ListNotations.

Local Open Scope string_scope.
Local Open Scope list_scope.
Local Open Scope Z_scope.

(** ** Results and errors *)

(** The Go errors that can flow through the two files.  Messages are kept
    as the library writes them; the prefix error keeps its cause structured
    instead of rendering it with [strconv.Quote]. *)
Inductive parseAddrError : Type :=
  mkParseAddrError (in_ : string) (msg : string) (at_ : string).

Inductive prefixCause : Type :=
| NoSlash
| BadAddr (e : parseAddrError)
| ZoneInPrefix
| BadBits (bitsStr : string)
| BitsOutOfRange.

Inductive error : Type :=
| AddrError (why : string) (addr : string)          (* net.AddrError *)
| ParseAddrErr (e : parseAddrError)                  (* netip.parseAddrError *)
| ParsePrefixErr (in_ : string) (cause : prefixCause) (* netip.parsePrefixError *)
| TransportErr (msg : string).                       (* anything net/http returns *)

Definition result (A : Type) : Type := (A + error)%type.

Definition ok {A} (a : A) : result A := inl a.
Definition fail {A} (e : error) : result A := inr e.

Definition is_ok {A} (r : result A) : bool :=
  match r with inl _ => true | inr _ => false end.

(** ** Byte strings *)

Module GoString.

Definition byteval (c : ascii) : Z := Z.of_N (N_of_ascii c).

(** [s[n:]] for [n <= len(s)]. *)
Fixpoint drop (n : nat) (s : string) : string :=
  match n, s with
  | O, _ => s
  | S n', String _ s' => drop n' s'
  | S _, EmptyString => EmptyString
  end.

(** [s[:n]] for [n <= len(s)]. *)
Fixpoint take (n : nat) (s : string) : string :=
  match n, s with
  | O, _ => EmptyString
  | S n', String c s' => String c (take n' s')
  | S _, EmptyString => EmptyString
  end.

(** [bytealg.IndexByteString]: index of the first [c]; [None] is Go's -1. *)
Fixpoint IndexByteString (s : string) (c : ascii) : option nat :=
  match s with
  | EmptyString => None
  | String a s' =>
      if Ascii.eqb a c then Some O
      else option_map S (IndexByteString s' c)
  end.

(** [bytealg.LastIndexByteString]: index of the last [c]. *)
Fixpoint LastIndexByteString (s : string) (c : ascii) : option nat :=
  match s with
  | EmptyString => None
  | String a s' =>
      match LastIndexByteString s' c with
      | Some i => Some (S i)
      | None => if Ascii.eqb a c then Some O else None
      end
  end.

(** [strings.Cut(s, sep)] for a one-byte separator. *)
Definition Cut (s : string) (sep : ascii) : string * string * bool :=
  match IndexByteString s sep with
  | Some i => (take i s, drop (S i) s, true)
  | None => (s, EmptyString, false)
  end.

(** [len(s) > 0 && s[0] == c]. *)
Definition starts_with (c : ascii) (s : string) : bool :=
  match s with
  | String a _ => Ascii.eqb a c
  | EmptyString => false
  end.

(** [strings.Repeat] of a single byte. *)
Fixpoint replicate (n : nat) (c : ascii) : string :=
  match n with
  | O => EmptyString
  | S n' => String c (replicate n' c)
  end.

End GoString.

(** ** net.SplitHostPort *)

Module Net.
Import GoString.

Definition missingPort := "missing port in address".
Definition tooManyColons := "too many colons in address".

Definition addrErr {A} (addr why : string) : result A :=
  fail (AddrError why addr).

(** The two trailing bracket checks of [SplitHostPort]; [j] and [k] are
    the offsets after which no '[' resp. ']' may appear. *)
Definition bracketChecks (hostport host : string) (i j k : nat)
  : result (string * string) :=
  match IndexByteString (drop j hostport) "[" with
  | Some _ => addrErr hostport "unexpected '[' in address"
  | None =>
      match IndexByteString (drop k hostport) "]" with
      | Some _ => addrErr hostport "unexpected ']' in address"
      | None => ok (host, drop (S i) hostport)
      end
  end.

Definition SplitHostPort (hostport : string) : result (string * string) :=
  (* The port starts after the last colon. *)
  match LastIndexByteString hostport ":" with
  | None => addrErr hostport missingPort
  | Some i =>
      if starts_with "[" hostport then
        (* Expect the first ']' just before the last ':'. *)
        match IndexByteString hostport "]" with
        | None => addrErr hostport "missing ']' in address"
        | Some end_ =>
            if (S end_ =? String.length hostport)%nat then
              addrErr hostport missingPort
            else if (S end_ =? i)%nat then
              bracketChecks hostport (take (end_ - 1) (drop 1 hostport))
                            i 1 (S end_)
            else if starts_with ":" (drop (S end_) hostport) then
              addrErr hostport tooManyColons
            else addrErr hostport missingPort
        end
      else
        let host := take i hostport in
        match IndexByteString host ":" with
        | Some _ => addrErr hostport tooManyColons
        | None => bracketChecks hostport host i 0 0
        end
  end.

End Net.

(** ** net/netip *)

Module Netip.
Import GoString.

(** *** uint128 and the address representation *)

Record uint128 : Type := mkU128 { hi : Z; lo : Z }.

Definition all64 : Z := 2 ^ 64 - 1.                  (* ^uint64(0) *)
Definition not64 (x : Z) : Z := Z.lxor x all64.      (* ^x on uint64 *)
Definition shl64 (x n : Z) : Z := Z.shiftl x n mod 2 ^ 64.
Definition shr64 (x n : Z) : Z := Z.shiftr x n.

Definition u128_and (a b : uint128) : uint128 :=
  mkU128 (Z.land (hi a) (hi b)) (Z.land (lo a) (lo b)).
Definition u128_xor (a b : uint128) : uint128 :=
  mkU128 (Z.lxor (hi a) (hi b)) (Z.lxor (lo a) (lo b)).
Definition u128_isZero (a : uint128) : bool :=
  (hi a =? 0) && (lo a =? 0).

(** [mask6(n)]: the top [n] bits of a 128-bit value. *)
Definition mask6 (n : Z) : uint128 :=
  mkU128 (not64 (shr64 all64 n)) (shl64 all64 (128 - n)).

(** The [z] field: [z0] for the zero Addr, [z4] for IPv4, [z6noz] for
    IPv6 without zone, otherwise the interned zone name. *)
Inductive zone : Type :=
| z0
| z4
| z6noz
| z6zone (name : string).

Record Addr : Type := mkAddr { addr : uint128; z : zone }.

Definition zone_eqb (a b : zone) : bool :=
  match a, b with
  | z0, z0 | z4, z4 | z6noz, z6noz => true
  | z6zone n, z6zone m => String.eqb n m
  | _, _ => false
  end.

Definition Is4 (ip : Addr) : bool := zone_eqb (z ip) z4.
Definition Is6 (ip : Addr) : bool :=
  negb (zone_eqb (z ip) z0) && negb (zone_eqb (z ip) z4).
Definition isZero (ip : Addr) : bool := zone_eqb (z ip) z0.
Definition hasZone (ip : Addr) : bool :=
  negb (zone_eqb (z ip) z0) && negb (zone_eqb (z ip) z4)
  && negb (zone_eqb (z ip) z6noz).

Definition BitLen (ip : Addr) : Z :=
  match z ip with
  | z0 => 0
  | z4 => 32
  | _ => 128
  end.

(** [AddrFrom4]; the arguments are bytes ([uint8]). *)
Definition AddrFrom4 (a b c d : Z) : Addr :=
  mkAddr (mkU128 0
            (Z.lor (Z.lor (Z.lor (Z.lor 0xffff00000000
               (Z.shiftl (a mod 256) 24))
               (Z.shiftl (b mod 256) 16))
               (Z.shiftl (c mod 256) 8))
               (d mod 256)))
         z4.

(** [byteorder.BigEndian.Uint64] over a slice of bytes. *)
Definition beUint64 (bs : list Z) : Z :=
  fold_left (fun acc b => Z.lor (shl64 acc 8) (b mod 256)) bs 0.

(** [AddrFrom16]; [ip] is the 16-byte array. *)
Definition AddrFrom16 (ip : list Z) : Addr :=
  mkAddr (mkU128 (beUint64 (firstn 8 ip)) (beUint64 (skipn 8 ip))) z6noz.

Definition IPv6Unspecified : Addr := mkAddr (mkU128 0 0) z6noz.

Definition WithZone (ip : Addr) (zn : string) : Addr :=
  if negb (Is6 ip) then ip
  else if String.eqb zn "" then mkAddr (addr ip) z6noz
  else mkAddr (addr ip) (z6zone zn).

Definition withoutZone (ip : Addr) : Addr :=
  if negb (Is6 ip) then ip else mkAddr (addr ip) z6noz.

(** *** Parsing addresses *)

Definition addrError {A} (in_ msg at_ : string) : result A :=
  fail (ParseAddrErr (mkParseAddrError in_ msg at_)).

Definition isDigit (c : ascii) : bool :=
  (byteval "0" <=? byteval c) && (byteval c <=? byteval "9").

(** The loop of [parseIPv4Fields] over [s = in[off:end]].  [first] says
    that the index is 0, [prevDot] that the previous byte was a dot;
    [fields] holds the [pos] octets stored so far. *)
Fixpoint parseIPv4Fields_loop (in_ s : string) (first prevDot : bool)
         (val pos digLen : Z) (fields : list Z) : result (list Z) :=
  match s with
  | EmptyString =>
      if pos <? 3 then addrError in_ "IPv4 address too short" ""
      else ok (fields ++ [val mod 256])
  | String c rest =>
      if isDigit c then
        if (digLen =? 1) && (val =? 0) then
          addrError in_ "IPv4 field has octet with leading zero" ""
        else
          let val' := val * 10 + byteval c - byteval "0" in
          if 255 <? val' then addrError in_ "IPv4 field has value >255" ""
          else parseIPv4Fields_loop in_ rest false false
                                    val' pos (digLen + 1) fields
      else if Ascii.eqb c "." then
        if first || String.eqb rest "" || prevDot then
          addrError in_ "IPv4 field must have at least one digit" s
        else if pos =? 3 then addrError in_ "IPv4 address too long" ""
        else parseIPv4Fields_loop in_ rest false true
                                  0 (pos + 1) 0 (fields ++ [val mod 256])
      else addrError in_ "unexpected character" s
  end.

Definition parseIPv4Fields (in_ s : string) : result (list Z) :=
  parseIPv4Fields_loop in_ s true false 0 0 0 [].

(** [parseIPv4]; a successful [parseIPv4Fields] always fills the four
    fields, so the last branch is never taken. *)
Definition parseIPv4 (s : string) : result Addr :=
  match parseIPv4Fields s s with
  | inr e => inr e
  | inl [a; b; c; d] => ok (AddrFrom4 a b c d)
  | inl _ => addrError s "IPv4 address too short" ""
  end.

Definition hexval (c : ascii) : option Z :=
  let v := byteval c in
  if (byteval "0" <=? v) && (v <=? byteval "9") then Some (v - byteval "0")
  else if (byteval "a" <=? v) && (v <=? byteval "f") then
    Some (v - byteval "a" + 10)
  else if (byteval "A" <=? v) && (v <=? byteval "F") then
    Some (v - byteval "A" + 10)
  else None.

(** The inner hex loop of [parseIPv6]: [grp] is the group being read (for
    the error), [s] what is left of it, [off] the digits consumed.
    Returns [off], the accumulator and [grp[off:]]. *)
Fixpoint hexGroup (in_ grp s : string) (off : nat) (acc : Z)
  : result (nat * Z * string) :=
  match s with
  | EmptyString => ok (off, acc, s)
  | String c rest =>
      match hexval c with
      | None => ok (off, acc, s)
      | Some d =>
          let acc' := (Z.shiftl acc 4 + d) mod 2 ^ 32 in
          if (3 <? off)%nat then
            addrError in_ "each group must have 4 or less digits" grp
          else if 0xffff <? acc' then
            addrError in_ "IPv6 field has value >=2^16" grp
          else hexGroup in_ grp rest (S off) acc'
      end
  end.

(** The group loop of [parseIPv6], [for i < 16].  [ip] holds the [i]
    bytes written so far; each round writes two more or leaves the loop,
    so eight rounds of [fuel] are never exhausted before [i] reaches 16.
    Returns the unread rest, [i], the ellipsis position and the bytes. *)
Fixpoint parseIPv6_loop (fuel : nat) (in_ s : string) (i : nat)
         (ellipsis : option nat) (ip : list Z)
  : result (string * nat * option nat * list Z) :=
  if (16 <=? i)%nat then ok (s, i, ellipsis, ip) else
  match fuel with
  | O => ok (s, i, ellipsis, ip)
  | S fuel' =>
      match hexGroup in_ s s 0 0 with
      | inr e => inr e
      | inl (off, acc, rest) =>
          if (off =? 0)%nat then
            addrError in_
              "each colon-separated field must have at least one digit" s
          else if starts_with "." rest then
            (* followed by a dot: trailing IPv4 *)
            if match ellipsis with None => negb (i =? 12)%nat
                                 | Some _ => false end then
              addrError in_
                "embedded IPv4 address must replace the final 2 fields of the address" s
            else if (16 <? i + 4)%nat then
              addrError in_
                "too many hex fields to fit an embedded IPv4 at the end of the address" s
            else
              match parseIPv4Fields in_ s with
              | inr e => inr e
              | inl f4 => ok (EmptyString, (i + 4)%nat, ellipsis, ip ++ f4)
              end
          else
            (* save this 16-bit chunk *)
            let ip' := ip ++ [Z.shiftr acc 8 mod 256; acc mod 256] in
            let i' := (i + 2)%nat in
            match rest with
            | EmptyString => ok (rest, i', ellipsis, ip')
            | String c rest1 =>
                if negb (Ascii.eqb c ":") then
                  addrError in_ "unexpected character, want colon" rest
                else
                  match rest1 with
                  | EmptyString =>
                      addrError in_
                        "colon must be followed by more characters" rest
                  | String c2 rest2 =>
                      if Ascii.eqb c2 ":" then
                        match ellipsis with
                        | Some _ =>
                            addrError in_ "multiple :: in address" rest1
                        | None =>
                            match rest2 with
                            | EmptyString => ok (rest2, i', Some i', ip')
                            | _ => parseIPv6_loop fuel' in_ rest2 i'
                                                  (Some i') ip'
                            end
                        end
                      else parseIPv6_loop fuel' in_ rest1 i' ellipsis ip'
                  end
            end
      end
  end.

Definition parseIPv6 (in_ : string) : result Addr :=
  (* split off the zone right from the start *)
  let '(s, zn, hasPct) := Cut in_ "%" in
  if hasPct && String.eqb zn "" then
    addrError in_ "zone must be a non-empty string" ""
  else
    (* might have leading ellipsis *)
    let lead := starts_with ":" s && starts_with ":" (drop 1 s) in
    let s1 := if lead then drop 2 s else s in
    let ellipsis := if lead then Some O else None in
    if lead && String.eqb s1 "" then ok (WithZone IPv6Unspecified zn)
    else
      match parseIPv6_loop 8 in_ s1 0 ellipsis [] with
      | inr e => inr e
      | inl (rest, i, ell, ip) =>
          (* must have used entire string *)
          if negb (String.eqb rest "") then
            addrError in_ "trailing garbage after address" rest
          else if (i <? 16)%nat then
            (* expand the ellipsis: the bytes from [e] on move up by
               [16 - i] and the gap is cleared *)
            match ell with
            | None => addrError in_ "address string too short" ""
            | Some e =>
                ok (WithZone
                      (AddrFrom16 (firstn e ip ++ repeat 0 (16 - i)
                                     ++ skipn e ip)) zn)
            end
          else
            match ell with
            | Some _ =>
                addrError in_
                  "the :: must expand to at least one field of zeroes" ""
            | None => ok (WithZone (AddrFrom16 ip) zn)
            end
      end.

(** The dispatch loop of [ParseAddr]: the first '.', ':' or '%' decides. *)
Fixpoint ParseAddr_scan (s rest : string) : result Addr :=
  match rest with
  | EmptyString => addrError s "unable to parse IP" ""
  | String c rest' =>
      if Ascii.eqb c "." then parseIPv4 s
      else if Ascii.eqb c ":" then parseIPv6 s
      else if Ascii.eqb c "%" then addrError s "missing IPv6 address" ""
      else ParseAddr_scan s rest'
  end.

Definition ParseAddr (s : string) : result Addr := ParseAddr_scan s s.

(** *** Prefixes *)

Record Prefix : Type := mkPrefix { ip : Addr; bitsPlusOne : Z }.

Definition IsValid (p : Prefix) : bool := 0 <? bitsPlusOne p.
Definition Bits (p : Prefix) : Z := bitsPlusOne p - 1.
Definition PrefixAddr (p : Prefix) : Addr := ip p.

Definition PrefixFrom (a : Addr) (bits : Z) : Prefix :=
  mkPrefix (withoutZone a)
           (if negb (isZero a) && (0 <=? bits) && (bits <=? BitLen a)
            then bits mod 256 + 1 else 0).

(** [strconv.Atoi] on a 64-bit platform: an optional sign, then one or
    more decimal digits, the value within [int]; [None] stands for the
    [*NumError] (syntax or range), which [ParsePrefix] does not inspect. *)
Fixpoint digitsValue (s : string) (acc : Z) : option Z :=
  match s with
  | EmptyString => Some acc
  | String c rest =>
      if isDigit c then digitsValue rest (acc * 10 + byteval c - byteval "0")
      else None
  end.

Definition Atoi (s : string) : option Z :=
  let '(neg, body) :=
    match s with
    | String c rest =>
        if Ascii.eqb c "-" then (true, rest)
        else if Ascii.eqb c "+" then (false, rest)
        else (false, s)
    | EmptyString => (false, s)
    end in
  match body with
  | EmptyString => None
  | _ =>
      match digitsValue body 0 with
      | None => None
      | Some n =>
          let v := if neg then - n else n in
          if (- 2 ^ 63 <=? v) && (v <=? 2 ^ 63 - 1) then Some v else None
      end
  end.

Definition prefixError {A} (in_ : string) (c : prefixCause) : result A :=
  fail (ParsePrefixErr in_ c).

Definition ParsePrefix (s : string) : result Prefix :=
  match LastIndexByteString s "/" with
  | None => prefixError s NoSlash
  | Some i =>
      match ParseAddr (take i s) with
      | inr (ParseAddrErr e) => prefixError s (BadAddr e)
      | inr e => inr e
      | inl a =>
          (* IPv6 zones are not allowed *)
          if Is6 a && negb (zone_eqb (z a) z6noz) then
            prefixError s ZoneInPrefix
          else
            let bitsStr := drop (S i) s in
            (* no leading sign and no leading zeroes *)
            if (1 <? String.length bitsStr)%nat
               && negb (match bitsStr with
                        | String c _ =>
                            (byteval "1" <=? byteval c)
                            && (byteval c <=? byteval "9")
                        | EmptyString => false
                        end) then
              prefixError s (BadBits bitsStr)
            else
              match Atoi bitsStr with
              | None => prefixError s (BadBits bitsStr)
              | Some bits =>
                  let maxBits := if Is6 a then 128 else 32 in
                  if (bits <? 0) || (maxBits <? bits) then
                    prefixError s BitsOutOfRange
                  else ok (PrefixFrom a bits)
              end
      end
  end.

(** [Prefix.Contains]. *)
Definition Contains (p : Prefix) (a : Addr) : bool :=
  if negb (IsValid p) || hasZone a then false
  else
    let f1 := BitLen (PrefixAddr p) in
    let f2 := BitLen a in
    if (f1 =? 0) || (f2 =? 0) || negb (f1 =? f2) then false
    else if Is4 a then
      (* xor the addresses, shift away the bits that do not matter,
         truncate to 32 bits *)
      shr64 (Z.lxor (lo (addr a)) (lo (addr (ip p))))
            (Z.land (32 - Bits p) 63) mod 2 ^ 32 =? 0
    else
      u128_isZero (u128_and (u128_xor (addr a) (addr (ip p)))
                            (mask6 (Bits p))).

End Netip.

(** ** bufio.Scanner with the default [ScanLines] split *)

Module Bufio.
Import GoString.

Definition MaxScanTokenSize : Z := 64 * 1024.

Definition LF : ascii := "010".
Definition CR : ascii := "013".

(** The scanner is run over what reading the underlying [io.Reader] to its
    end delivers: the bytes [data], then [io.EOF] ([None]) or a read
    error. *)

(** [dropCR] applied to the pending line, which is kept reversed. *)
Definition lineToken (rcur : list ascii) : string :=
  string_of_list_ascii
    (rev (match rcur with
          | c :: t => if Ascii.eqb c CR then t else rcur
          | [] => rcur
          end)).

Definition ErrTooLong : error := TransportErr "bufio.Scanner: token too long".

(** The tokens the successive [Scan] calls return before [Scan] returns
    false, and what [Err] would report afterwards.  [rcur] is the pending
    unterminated line (reversed) and [n] its length.  A read that would
    have to grow the buffer beyond [MaxScanTokenSize] stops the scanner
    with [ErrTooLong]; at the end of the input, also on a read error,
    the pending bytes are handed out as a last token. *)
Fixpoint scanLines (rcur : list ascii) (n : Z) (data : string)
         (readErr : option error) : list string * option error :=
  match data with
  | EmptyString =>
      (if n =? 0 then [] else [lineToken rcur], readErr)
  | String c rest =>
      if MaxScanTokenSize <=? n then ([], Some ErrTooLong)
      else if Ascii.eqb c LF then
        let '(toks, e) := scanLines [] 0 rest readErr in
        (lineToken rcur :: toks, e)
      else scanLines (c :: rcur) (n + 1) rest readErr
  end.

Definition Scan (data : string) (readErr : option error)
  : list string * option error :=
  scanLines [] 0 data readErr.

End Bufio.

(** ** The plugins package *)

Module Plugins.
Import GoString Netip.

Definition ipv4 := "https://www.cloudflare.com/ips-v4".
Definition ipv6 := "https://www.cloudflare.com/ips-v6".

(** [http.Request]: only the peer address is read. *)
Record Request : Type := mkRequest { RemoteAddr : string }.

(** What is written to the [zap.Logger]. *)
Inductive level : Type := DebugLevel | InfoLevel | WarnLevel | ErrorLevel.
Inductive field : Type :=
| zapError (e : error)
| zapInt (key : string) (n : Z).
Record entry : Type := mkEntry { lvl : level; msg : string; fields : list field }.

(** [caddyhttp.IPRangeSource]. *)
Class IPRangeSource (T : Type) : Type :=
  GetIPRanges : T -> Request -> list Prefix.

(** A non-nil interface value: a receiver with its method. *)
Record provider : Type :=
  mkProvider { impl : Type; impl_source : IPRangeSource impl; self : impl }.

Definition providerRanges (p : provider) (r : Request) : list Prefix :=
  @GetIPRanges (impl p) (impl_source p) (self p) r.

(** *** The matcher, [MatchDynamicRemoteIP] *)

(** A provisioned matcher; [Providers] is [None] for the nil interface.
    The logger is the sink [Match] writes to. *)
Record MatchDynamicRemoteIP : Type :=
  mkMatcher { Providers : option provider }.

Definition parseIPZoneFromString (address : string) : result Addr :=
  let ipStr :=
    match Net.SplitHostPort address with
    | inl (host, _) => host
    | inr _ => address
    end in
  let '(ipStr, _, _) := Cut ipStr "%" in
  ParseAddr ipStr.

(** The [for ... range cidrs] loop of [Match]. *)
Fixpoint Match_loop (cidrs : list Prefix) (remoteIP : Addr) : bool :=
  match cidrs with
  | [] => false
  | ipRange :: rest =>
      if Contains ipRange remoteIP then true
      else Match_loop rest remoteIP
  end.

(** [Match] returns its verdict and what it logged. *)
Definition Match (m : MatchDynamicRemoteIP) (r : Request)
  : bool * list entry :=
  let address := RemoteAddr r in
  match parseIPZoneFromString address with
  | inr err => (false, [mkEntry ErrorLevel "getting remote IP" [zapError err]])
  | inl remoteIP =>
      match Providers m with
      | None => (false, [])
      | Some src => (Match_loop (providerRanges src r) remoteIP, [])
      end
  end.

(** *** The source, [CloudflareIPRange] (cloudflare_source.go) *)

Definition Second : Z := 1000000000.
Definition Hour : Z := 3600 * Second.

(** [Interval] and [Timeout] are [caddy.Duration]s (nanoseconds); an
    absent JSON or Caddyfile setting leaves the zero value. *)
Record CloudflareIPRange : Type :=
  mkSource { Interval : Z; Timeout : Z; ranges : list Prefix }.

(** [new(CloudflareIPRange)] with the configuration loaded. *)
Definition newSource (interval timeout : Z) : CloudflareIPRange :=
  mkSource interval timeout [].

(** The network as one fetch cycle sees it: what a GET of a URL under a
    timeout gives.  Either [http.DefaultClient.Do] returns an error, or
    it returns a response whose body delivers [data] and then ends with
    [io.EOF] ([None]) or with a read error (reset, deadline). *)
Inductive response : Type :=
| DoError (e : error)
| Body (data : string) (readErr : option error).

Definition HTTP : Type := string -> Z -> response.

(** The duration handed to [context.WithTimeout]. *)
Definition fetchTimeout (s : CloudflareIPRange) : Z :=
  if Timeout s =? 0 then 15 * Second else Timeout s.

(** The [for scanner.Scan()] loop over the lines the scanner returns. *)
Fixpoint fetch_loop (lines : list string) (prefixes : list Prefix)
  : result (list Prefix) :=
  match lines with
  | [] => ok prefixes
  | line :: rest =>
      if String.eqb line "" then fetch_loop rest prefixes
      else
        match ParsePrefix line with
        | inr err => inr err
        | inl prefix => fetch_loop rest (prefixes ++ [prefix])
        end
  end.

(** [fetch]; [http.NewRequestWithContext] cannot fail on the two constant
    URLs.  The scanner's own error is never consulted. *)
Definition fetch (s : CloudflareIPRange) (net : HTTP) (api : string)
  : result (list Prefix) :=
  let timeout := fetchTimeout s in
  match net api timeout with
  | DoError err => inr err
  | Body data readErr =>
      let '(lines, _) := Bufio.Scan data readErr in
      fetch_loop lines []
  end.

Fixpoint getPrefixes_loop (s : CloudflareIPRange) (net : HTTP)
         (apis : list string) (full : list Prefix) : result (list Prefix) :=
  match apis with
  | [] => ok full
  | api :: rest =>
      match fetch s net api with
      | inr err => inr err
      | inl prefixes => getPrefixes_loop s net rest (full ++ prefixes)
      end
  end.

Definition getPrefixes (s : CloudflareIPRange) (net : HTTP)
  : result (list Prefix) :=
  getPrefixes_loop s net [ipv4; ipv6] [].

Definition setRanges (s : CloudflareIPRange) (rs : list Prefix)
  : CloudflareIPRange :=
  mkSource (Interval s) (Timeout s) rs.

Definition setInterval (s : CloudflareIPRange) (d : Z) : CloudflareIPRange :=
  mkSource d (Timeout s) (ranges s).

(** [Provision]: the new state, the log, and the returned error. *)
Definition Provision (s : CloudflareIPRange) (net : HTTP)
  : CloudflareIPRange * list entry * option error :=
  let l0 := mkEntry InfoLevel "fetching initial cloudflare ip ranges..." [] in
  match getPrefixes s net with
  | inr err =>
      (s, [l0; mkEntry ErrorLevel "failed to fetch initial cloudflare ips"
                       [zapError err]], None)
  | inl initialRanges =>
      let s' := setRanges s initialRanges in
      (s', [l0; mkEntry InfoLevel "cloudflare ip ranges loaded successfully"
                        [zapInt "count" (Z.of_nat (List.length (ranges s')))]],
       None)
  end.

(** What the [select] of [refreshLoop] receives. *)
Inductive event : Type :=
| Tick (net : HTTP)     (* <-ticker.C, with the network of that moment *)
| Done.                 (* <-s.ctx.Done() *)

(** The [case <-ticker.C] branch. *)
Definition refreshTick (s : CloudflareIPRange) (net : HTTP)
  : CloudflareIPRange * list entry :=
  match getPrefixes s net with
  | inr err =>
      (s, [mkEntry WarnLevel "could not refresh cloudflare ips"
                   [zapError err]])
  | inl newRanges =>
      let s' := setRanges s newRanges in
      (s', [mkEntry DebugLevel "cloudflare ip ranges refreshed"
                    [zapInt "count" (Z.of_nat (List.length (ranges s')))]])
  end.

(** The [for { select ... }] loop over the events that arrive. *)
Fixpoint refreshLoop_run (s : CloudflareIPRange) (evs : list event)
  : CloudflareIPRange * list entry :=
  match evs with
  | [] => (s, [])
  | Done :: _ => (s, [])
  | Tick net :: rest =>
      let '(s', l1) := refreshTick s net in
      let '(s'', l2) := refreshLoop_run s' rest in
      (s'', l1 ++ l2)
  end.

(** [time.NewTicker] panics on a non-positive duration ([None]). *)
Definition NewTicker (d : Z) : option Z :=
  if d <=? 0 then None else Some d.

(** The interval [refreshLoop] hands to [time.NewTicker]. *)
Definition refreshInterval (s : CloudflareIPRange) : Z :=
  Interval (if Interval s =? 0 then setInterval s Hour else s).

(** [refreshLoop]; [None] is the panic of [time.NewTicker]. *)
Definition refreshLoop (s : CloudflareIPRange) (evs : list event)
  : option (CloudflareIPRange * list entry) :=
  let s := if Interval s =? 0 then setInterval s Hour else s in
  match NewTicker (Interval s) with
  | None => None
  | Some _ => Some (refreshLoop_run s evs)
  end.

#[export] Instance CloudflareIPRange_source : IPRangeSource CloudflareIPRange :=
  fun s _ => ranges s.

Definition asProvider (s : CloudflareIPRange) : provider :=
  mkProvider CloudflareIPRange CloudflareIPRange_source s.

End Plugins.

(** ** Concrete values used by the properties *)

Import GoString Netip Plugins.

Definition addr_198_51_100_42 : Addr := AddrFrom4 198 51 100 42.
Definition addr_198_51_101_1 : Addr := AddrFrom4 198 51 101 1.
Definition addr_203_0_113_5 : Addr := AddrFrom4 203 0 113 5.
Definition addr_2001_db8__1 : Addr :=
  AddrFrom16 [0x20; 0x01; 0x0d; 0xb8; 0; 0; 0; 0; 0; 0; 0; 0; 0; 0; 0; 1].
Definition addr_fe80__1 : Addr :=
  AddrFrom16 [0xfe; 0x80; 0; 0; 0; 0; 0; 0; 0; 0; 0; 0; 0; 0; 0; 1].

(** 198.51.100.0/24 *)
Definition prefix_198_51_100_0_24 : Prefix :=
  PrefixFrom (AddrFrom4 198 51 100 0) 24.

Definition matcher_198_51_100 : MatchDynamicRemoteIP :=
  mkMatcher (Some (asProvider (mkSource 0 0 [prefix_198_51_100_0_24]))).

(** A tick whose cycle reports an error. *)
Definition tick_fails (s : CloudflareIPRange) (ev : event) : Prop :=
  match ev with
  | Tick net => exists e, getPrefixes s net = inr e
  | Done => True
  end.

(** A network on which every connection is refused. *)
Definition net_unreachable : HTTP :=
  fun _ _ => DoError (TransportErr "dial tcp: connection refused").

(** The line terminator. *)
Definition nl : string := String Bufio.LF EmptyString.

(** 203.0.113.0/24 and 2001:db8::/32, a snapshot with both families. *)
Definition prefix_203_0_113_0_24 : Prefix :=
  PrefixFrom (AddrFrom4 203 0 113 0) 24.
Definition prefix_2001_db8_32 : Prefix :=
  PrefixFrom (AddrFrom16 [0x20; 0x01; 0x0d; 0xb8; 0; 0; 0; 0;
                          0; 0; 0; 0; 0; 0; 0; 0]) 32.
Definition source_with_both_families : CloudflareIPRange :=
  mkSource 0 0 [prefix_203_0_113_0_24; prefix_2001_db8_32].

(** The v4 list arrives whole; the v6 response starts, but reading its body
    fails before the first byte (the deadline passes). *)
Definition net_v6_body_read_fails : HTTP :=
  fun url _ =>
    if String.eqb url ipv4 then Body ("198.51.100.0/24" ++ nl)%string None
    else Body "" (Some (TransportErr "context deadline exceeded")).

(** The v6 body is cut by a read error in the middle of the line
    [2400:cb00::/32], after [2400:cb00::/3]. *)
Definition net_v6_body_truncated : HTTP :=
  fun url _ =>
    if String.eqb url ipv4 then Body ("198.51.100.0/24" ++ nl)%string None
    else Body ("2001:db8::/32" ++ nl ++ "2400:cb00::/3")%string
              (Some (TransportErr "unexpected EOF")).

(** A complete body whose second line is 65536 bytes long. *)
Definition body_with_long_line : string :=
  ("198.51.100.0/24" ++ nl
   ++ replicate (Z.to_nat Bufio.MaxScanTokenSize) "x" ++ nl
   ++ "203.0.113.0/24" ++ nl)%string.

(** ** Containment, as the specification words it *)

Inductive family : Type := IPv4 | IPv6.

Definition family_of (a : Addr) : option family :=
  match z a with
  | z0 => None
  | z4 => Some IPv4
  | _ => Some IPv6
  end.

(** An address as the specification sees it: its family, its number (32
    bits wide for IPv4, 128 for IPv6) and its zone, empty when it has
    none.  An IPv4 address is stored in the low 32 bits of [lo]. *)
Record ip_value : Type :=
  mkValue { val_family : option family; val_number : Z; val_zone : string }.

Definition family_width (f : option family) : Z :=
  match f with
  | Some IPv4 => 32
  | Some IPv6 => 128
  | None => 0
  end.

Definition value_of (a : Addr) : ip_value :=
  mkValue (family_of a)
          (match z a with
           | z0 => 0
           | z4 => lo (addr a) mod 2 ^ 32
           | _ => hi (addr a) * 2 ^ 64 + lo (addr a)
           end)
          (match z a with
           | z6zone name => name
           | _ => EmptyString
           end).

(** The number a sequence of bytes spells, the first byte the most
    significant. *)
Definition be_number (bs : list Z) : Z :=
  fold_left (fun a b => a * 256 + b) bs 0.

(** A value masked to length [n]: the leading [n] bits of its number
    kept, the bits below them zero. *)
Definition keep_leading_bits (v : ip_value) (n : Z) : ip_value :=
  let k := family_width (val_family v) - n in
  mkValue (val_family v) (val_number v / 2 ^ k * 2 ^ k) (val_zone v).

(** The network value of a prefix: its address masked to its length. *)
Definition network_value (p : Prefix) : ip_value :=
  keep_leading_bits (value_of (ip p)) (Bits p).

(** [a] lies in the family of [p], and masked to the length of [p] it is
    the network value of [p]. *)
Definition in_prefix (p : Prefix) (a : Addr) : Prop :=
  val_family (value_of a) = val_family (value_of (ip p))
  /\ keep_leading_bits (value_of a) (Bits p) = network_value p.

(** The same masking on the stored representation, with the masks the
    library computes; an intermediate form for the proofs. *)
Definition mask_to_length (a : Addr) (n : Z) : Addr :=
  mkAddr (u128_and (addr a) (mask6 (if Is4 a then n + 96 else n))) (z a).

Definition network (p : Prefix) : Addr := mask_to_length (ip p) (Bits p).

Definition contains_spec (p : Prefix) (a : Addr) : Prop :=
  family_of a = family_of (ip p)
  /\ mask_to_length a (Bits p) = network p.

(** The values [netip] builds: an IPv4 address is stored as the
    IPv4-mapped IPv6 value, halves are 64 bits wide, a zone name is not
    empty. *)
Definition u64_ok (x : Z) : bool := (0 <=? x) && (x <? 2 ^ 64).

Definition Addr_ok (a : Addr) : bool :=
  match z a with
  | z0 => (hi (addr a) =? 0) && (lo (addr a) =? 0)
  | z4 => (hi (addr a) =? 0) && (Z.shiftr (lo (addr a)) 32 =? 0xffff)
  | z6noz => u64_ok (hi (addr a)) && u64_ok (lo (addr a))
  | z6zone n => u64_ok (hi (addr a)) && u64_ok (lo (addr a))
                && negb (String.eqb n "")
  end.

(** A valid prefix: a non-zero address without zone and a length within
    the address's width. *)
Definition Prefix_ok (p : Prefix) : bool :=
  IsValid p && (Bits p <=? BitLen (ip p)) && Addr_ok (ip p)
  && negb (isZero (ip p)) && negb (hasZone (ip p)).

(** ** Parsing a body, as the specification words it *)

(** The text of a complete body as lines: split at each LF, one trailing
    CR dropped, the unterminated rest a last line when it is not empty.
    [rcur] is the line being read, reversed. *)
Fixpoint body_lines (rcur : list ascii) (data : string) : list string :=
  match data with
  | EmptyString =>
      match rcur with
      | [] => []
      | _ => [Bufio.lineToken rcur]
      end
  | String c rest =>
      if Ascii.eqb c Bufio.LF then Bufio.lineToken rcur :: body_lines [] rest
      else body_lines (c :: rcur) rest
  end.

(** Blank lines skipped, every other line parsed as a CIDR literal, the
    first failure returned alone. *)
Fixpoint parse_lines (ls : list string) : result (list Prefix) :=
  match ls with
  | [] => ok []
  | l :: rest =>
      if String.eqb l "" then parse_lines rest
      else
        match ParsePrefix l with
        | inr e => inr e
        | inl p =>
            match parse_lines rest with
            | inr e => inr e
            | inl ps => ok (p :: ps)
            end
        end
  end.

Definition parse_prefix_list (body : string) : result (list Prefix) :=
  parse_lines (body_lines [] body).

(** No line of [data] reaches [MaxScanTokenSize] bytes before its LF; [n]
    bytes of the first line were read already. *)
Fixpoint short_lines (n : Z) (data : string) : bool :=
  match data with
  | EmptyString => true
  | String c rest =>
      (n <? Bufio.MaxScanTokenSize)
      && (if Ascii.eqb c Bufio.LF then short_lines 0 rest
          else short_lines (n + 1) rest)
  end.

(** ** Provisioning the matcher *)

Module Matcher.

(** What [ctx.LoadModule] hands back for the raw provider configuration:
    a module that implements [caddyhttp.IPRangeSource], or some other
    module, on which the type assertion of [Provision] panics. *)
Inductive loaded : Type :=
| IsSource (p : provider)
| NotSource.

(** The host's module loader, applied to [ProvidersRaw]. *)
Definition LoadModule : Type := string -> result loaded.

(** How a call ends: with a panic, or by returning an error value ([None]
    for nil) and leaving the receiver in state [m]. *)
Inductive outcome : Type :=
| Panics
| Returns (err : option error) (m : MatchDynamicRemoteIP).

(** [Provision] of the matcher; [raw] is the [ProvidersRaw] field, [None]
    when it is nil. *)
Definition Provision (raw : option string) (m : MatchDynamicRemoteIP)
           (load : LoadModule) : outcome :=
  match raw with
  | None => Returns None m
  | Some rawv =>
      match load rawv with
      | inr err => Returns (Some err) m
      | inl (IsSource p) => Returns None (mkMatcher (Some p))
      | inl NotSource => Panics
      end
  end.

End Matcher.

(** A network that serves both lists whole. *)
Definition net_lists_served : HTTP :=
  fun url _ =>
    if String.eqb url ipv4 then Body ("198.51.100.0/24" ++ nl)%string None
    else Body ("2001:db8::/32" ++ nl)%string None.

(** A line of 65536 bytes. *)
Definition line_of_64KiB : string :=
  replicate (Z.to_nat Bufio.MaxScanTokenSize) "x".

(** ** Event sequences and bodies made of lines *)

(** An event that is a tick of the timer. *)
Definition is_tick (ev : event) : Prop :=
  match ev with
  | Tick _ => True
  | Done => False
  end.

(** The line has no LF in it. *)
Fixpoint no_LF (l : string) : bool :=
  match l with
  | EmptyString => true
  | String c rest => negb (Ascii.eqb c Bufio.LF) && no_LF rest
  end.

(** The last byte of the line is a CR. *)
Definition ends_with_CR (l : string) : bool :=
  match rev (list_ascii_of_string l) with
  | c :: _ => Ascii.eqb c Bufio.CR
  | [] => false
  end.

Definition CRLF : string := String Bufio.CR (String Bufio.LF EmptyString).

(** The lines, each followed by the terminator [eol]. *)
Fixpoint unlines (eol : string) (ls : list string) : string :=
  match ls with
  | [] => EmptyString
  | l :: rest => (l ++ eol ++ unlines eol rest)%string
  end.

(** A line [fetch] can be handed whole: no LF inside, no CR at its end,
    and short enough to fit the scanner's buffer with its terminator. *)
Definition plain_line (l : string) : Prop :=
  no_LF l = true /\ ends_with_CR l = false
  /\ Z.of_nat (String.length l) < Bufio.MaxScanTokenSize - 1.

(** ** The matcher *)

Lemma Match_loop_existsb (cidrs : list Prefix) (a : Addr) :
  Match_loop cidrs a = existsb (fun p => Contains p a) cidrs.
Proof.
  induction cidrs as [|p rest IH]; simpl; [reflexivity|].
  rewrite IH. destruct (Contains p a); reflexivity.
Qed.

Lemma Match_loop_true_iff (cidrs : list Prefix) (a : Addr) :
  Match_loop cidrs a = true <->
  exists p, In p cidrs /\ Contains p a = true.
Proof.
  rewrite Match_loop_existsb. apply existsb_exists.
Qed.

Lemma ParsePrefix_198_51_100_0_24 :
  ParsePrefix "198.51.100.0/24" = inl prefix_198_51_100_0_24.
Proof. vm_compute. reflexivity. Qed.

(** C1. [Match] is the disjunction of [Contains] over the snapshot the
    source returns: it is true exactly when a source is configured, the
    peer address parses, and some prefix of the snapshot contains the parsed
    address; the loop stops at the first prefix that contains it.  With the
    snapshot [198.51.100.0/24], a peer that parses to 198.51.100.42 is
    matched and one that parses to 198.51.101.1 is not. *)
Theorem C1_Match_is_disjunction_over_snapshot
        (m : MatchDynamicRemoteIP) (r : Request) :
  (fst (Match m r) = true <->
   exists src a p,
     Providers m = Some src /\
     parseIPZoneFromString (RemoteAddr r) = inl a /\
     In p (providerRanges src r) /\ Contains p a = true)
  /\ (forall src a,
        Providers m = Some src ->
        parseIPZoneFromString (RemoteAddr r) = inl a ->
        fst (Match m r) = existsb (fun p => Contains p a) (providerRanges src r)
        /\ forall p rest,
            providerRanges src r = p :: rest -> Contains p a = true ->
            fst (Match m r) = true)
  /\ (forall src,
        Providers m = Some src ->
        providerRanges src r = [prefix_198_51_100_0_24] ->
        (parseIPZoneFromString (RemoteAddr r) = inl addr_198_51_100_42 ->
         fst (Match m r) = true)
        /\ (parseIPZoneFromString (RemoteAddr r) = inl addr_198_51_101_1 ->
            fst (Match m r) = false)).
Proof.
  unfold Match. split; [|split].
  - destruct (parseIPZoneFromString (RemoteAddr r)) as [a|e] eqn:Hp.
    + destruct (Providers m) as [src|] eqn:Hs; simpl.
      * rewrite Match_loop_true_iff. split.
        -- intros (p & Hin & Hc). exists src, a, p. auto.
        -- intros (src' & a' & p & Hs' & Ha' & Hin & Hc).
           inversion Hs'; inversion Ha'; subst. exists p. auto.
      * split; [discriminate|].
        intros (src' & a' & p & Hs' & _). discriminate.
    + simpl. split; [discriminate|].
      intros (src' & a' & p & _ & Ha' & _). discriminate.
  - intros src a Hs Hp. rewrite Hp, Hs. simpl. split.
    + apply Match_loop_existsb.
    + intros p rest Hr Hc. rewrite Hr. simpl. rewrite Hc. reflexivity.
  - intros src Hs Hr. split; intros Hp; rewrite Hp, Hs, Hr; vm_compute;
      reflexivity.
Qed.

Lemma C1_witness :
  fst (Match matcher_198_51_100 (mkRequest "198.51.100.42:51234")) = true
  /\ fst (Match matcher_198_51_100 (mkRequest "198.51.101.1:51234")) = false.
Proof.
  split.
  - apply (proj2 (proj2 (C1_Match_is_disjunction_over_snapshot
                           matcher_198_51_100
                           (mkRequest "198.51.100.42:51234")))
                 (asProvider (mkSource 0 0 [prefix_198_51_100_0_24])));
      vm_compute; reflexivity.
  - apply (proj2 (proj2 (C1_Match_is_disjunction_over_snapshot
                           matcher_198_51_100
                           (mkRequest "198.51.101.1:51234")))
                 (asProvider (mkSource 0 0 [prefix_198_51_100_0_24])));
      vm_compute; reflexivity.
Defined.

(** C2. When the peer-address string does not parse, [Match] logs the
    parse error at error level and returns false, whatever the source is;
    [Match] is a total function into [bool], so nothing is raised. *)
Theorem C2_Match_fails_closed_on_bad_address
        (m : MatchDynamicRemoteIP) (r : Request) (e : error) :
  parseIPZoneFromString (RemoteAddr r) = inr e ->
  Match m r = (false, [mkEntry ErrorLevel "getting remote IP" [zapError e]]).
Proof.
  intros Hp. unfold Match. rewrite Hp. reflexivity.
Qed.

Lemma C2_witness :
  Match matcher_198_51_100 (mkRequest "not-an-ip") =
  (false,
   [mkEntry ErrorLevel "getting remote IP"
      [zapError (ParseAddrErr
                   (mkParseAddrError "not-an-ip" "unable to parse IP" ""))]]).
Proof.
  apply (C2_Match_fails_closed_on_bad_address
           matcher_198_51_100 (mkRequest "not-an-ip")).
  vm_compute. reflexivity.
Defined.

(** C8. With no range source configured, [Match] returns false for every
    request. *)
Theorem C8_Match_without_source_is_false
        (m : MatchDynamicRemoteIP) (r : Request) :
  Providers m = None -> fst (Match m r) = false.
Proof.
  intros Hs. unfold Match. rewrite Hs.
  destruct (parseIPZoneFromString (RemoteAddr r)); reflexivity.
Qed.

Lemma C8_witness :
  fst (Match (mkMatcher None) (mkRequest "198.51.100.42:51234")) = false.
Proof.
  apply (C8_Match_without_source_is_false
           (mkMatcher None) (mkRequest "198.51.100.42:51234")).
  reflexivity.
Defined.

(** ** Peer-address parsing *)

(** C4. [parseIPZoneFromString] parses the host that [SplitHostPort]
    returns, or the whole string when the split fails, after cutting it at
    the first '%'; the three sample inputs give 203.0.113.5, 2001:db8::1 and
    an error. *)
Theorem C4_parseIPZoneFromString_port_and_zone :
  parseIPZoneFromString "203.0.113.5:443" = inl addr_203_0_113_5
  /\ parseIPZoneFromString "[2001:db8::1%eth0]:443" = inl addr_2001_db8__1
  /\ parseIPZoneFromString "not-an-ip" =
     inr (ParseAddrErr (mkParseAddrError "not-an-ip" "unable to parse IP" ""))
  /\ (forall address host port,
         Net.SplitHostPort address = inl (host, port) ->
         parseIPZoneFromString address = ParseAddr (fst (fst (Cut host "%"))))
  /\ (forall address e,
         Net.SplitHostPort address = inr e ->
         parseIPZoneFromString address =
         ParseAddr (fst (fst (Cut address "%")))).
Proof.
  split; [vm_compute; reflexivity|].
  split; [vm_compute; reflexivity|].
  split; [vm_compute; reflexivity|].
  split.
  - intros address host port Hs. unfold parseIPZoneFromString. rewrite Hs.
    destruct (Cut host "%") as [[h zn] b]. reflexivity.
  - intros address e Hs. unfold parseIPZoneFromString. rewrite Hs.
    destruct (Cut address "%") as [[h zn] b]. reflexivity.
Qed.

Lemma C4_witness :
  parseIPZoneFromString "203.0.113.5:443" = ParseAddr "203.0.113.5"
  /\ parseIPZoneFromString "fe80::1%eth0" = ParseAddr "fe80::1".
Proof.
  split.
  - apply (proj1 (proj2 (proj2 (proj2 C4_parseIPZoneFromString_port_and_zone)))
             "203.0.113.5:443" "203.0.113.5" "443").
    vm_compute. reflexivity.
  - apply (proj2 (proj2 (proj2 (proj2 C4_parseIPZoneFromString_port_and_zone)))
             "fe80::1%eth0" (AddrError "too many colons in address" "fe80::1%eth0")).
    vm_compute. reflexivity.
Defined.

(** ** The range source *)

Lemma getPrefixes_unfold (s : CloudflareIPRange) (net : HTTP) :
  getPrefixes s net =
  match fetch s net ipv4 with
  | inr err => inr err
  | inl v4 =>
      match fetch s net ipv6 with
      | inr err => inr err
      | inl v6 => inl (v4 ++ v6)
      end
  end.
Proof.
  unfold getPrefixes. simpl.
  destruct (fetch s net ipv4) as [v4|e4]; [|reflexivity].
  destruct (fetch s net ipv6) as [v6|e6]; reflexivity.
Qed.

(** As far as [fetch]'s own verdict goes, a cycle is all-or-nothing: an
    error from either call leaves state untouched, and two successes install
    the concatenation. *)
Lemma refreshTick_on_fetch_error (s : CloudflareIPRange) (net : HTTP) :
  (exists e, fetch s net ipv4 = inr e) \/
  (exists v4 e, fetch s net ipv4 = inl v4 /\ fetch s net ipv6 = inr e) ->
  (exists e, getPrefixes s net = inr e) /\ fst (refreshTick s net) = s.
Proof.
  intros H. unfold refreshTick. rewrite getPrefixes_unfold.
  destruct H as [[e He]|(v4 & e & H4 & H6)].
  - rewrite He. split; [eauto|reflexivity].
  - rewrite H4, H6. split; [eauto|reflexivity].
Qed.

Lemma refreshTick_on_fetch_success (s : CloudflareIPRange) (net : HTTP)
      (v4 v6 : list Prefix) :
  fetch s net ipv4 = inl v4 -> fetch s net ipv6 = inl v6 ->
  getPrefixes s net = inl (v4 ++ v6)
  /\ ranges (fst (refreshTick s net)) = v4 ++ v6.
Proof.
  intros H4 H6. unfold refreshTick. rewrite getPrefixes_unfold, H4, H6.
  split; reflexivity.
Qed.

Lemma refreshLoop_run_all_fail (s : CloudflareIPRange) (evs : list event) :
  Forall (tick_fails s) evs -> fst (refreshLoop_run s evs) = s.
Proof.
  induction 1 as [|ev evs Hev _ IH]; simpl; [reflexivity|].
  destruct ev as [net|]; [|reflexivity].
  destruct Hev as [e He]. unfold refreshTick. rewrite He.
  destruct (refreshLoop_run s evs) as [s'' l2]. exact IH.
Qed.

Lemma Match_empty_snapshot (s : CloudflareIPRange) (r : Request) :
  ranges s = [] -> fst (Match (mkMatcher (Some (asProvider s))) r) = false.
Proof.
  intros Hr. unfold Match.
  destruct (parseIPZoneFromString (RemoteAddr r)); [|reflexivity].
  simpl. unfold providerRanges. simpl.
  unfold GetIPRanges, CloudflareIPRange_source. rewrite Hr. reflexivity.
Qed.

(** C5. [Provision] returns no error even when the initial cycle fails;
    the snapshot is then still empty, [GetIPRanges] returns the empty
    sequence and [Match] is false for every request, also after any number
    of further failing ticks; the first tick that succeeds installs its
    prefixes. *)
Theorem C5_Provision_survives_failed_initial_fetch
        (interval timeout : Z) (net : HTTP) (e : error) :
  getPrefixes (newSource interval timeout) net = inr e ->
  let s' := fst (fst (Provision (newSource interval timeout) net)) in
  snd (Provision (newSource interval timeout) net) = None
  /\ ranges s' = []
  /\ (forall r, GetIPRanges s' r = [])
  /\ (forall r, fst (Match (mkMatcher (Some (asProvider s'))) r) = false)
  /\ (forall evs r,
        Forall (tick_fails s') evs ->
        fst (Match (mkMatcher
                      (Some (asProvider (fst (refreshLoop_run s' evs))))) r)
        = false)
  /\ (forall net' rs,
        getPrefixes s' net' = inl rs ->
        ranges (fst (refreshTick s' net')) = rs).
Proof.
  intros He. unfold Provision. rewrite He. simpl.
  split; [reflexivity|]. split; [reflexivity|]. split; [reflexivity|].
  split; [|split].
  - intros r. apply Match_empty_snapshot. reflexivity.
  - intros evs r Hall. rewrite (refreshLoop_run_all_fail _ _ Hall).
    apply Match_empty_snapshot. reflexivity.
  - intros net' rs Hrs. unfold refreshTick. rewrite Hrs. reflexivity.
Qed.

Lemma C5_witness :
  snd (Provision (newSource 0 0) net_unreachable) = None
  /\ ranges (fst (fst (Provision (newSource 0 0) net_unreachable))) = [].
Proof.
  destruct (C5_Provision_survives_failed_initial_fetch
              0 0 net_unreachable
              (TransportErr "dial tcp: connection refused"))
    as (H1 & H2 & _).
  - vm_compute. reflexivity.
  - split; [exact H1 | exact H2].
Defined.

(** C6 (as amended). A zero (absent) interval is replaced by one hour and a
    zero (absent) timeout by fifteen seconds; every other value, however
    large, and also a negative one, is used as configured. *)
Theorem C6_defaults_replace_zero_only (s : CloudflareIPRange) :
  (Interval s = 0 -> refreshInterval s = Hour)
  /\ (Timeout s = 0 -> fetchTimeout s = 15 * Second)
  /\ (Interval s <> 0 -> refreshInterval s = Interval s)
  /\ (Timeout s <> 0 -> fetchTimeout s = Timeout s)
  /\ (forall evs,
        refreshLoop s evs =
        if refreshInterval s <=? 0 then None
        else Some (refreshLoop_run
                     (if Interval s =? 0 then setInterval s Hour else s) evs)).
Proof.
  unfold refreshInterval, fetchTimeout, refreshLoop, NewTicker.
  repeat split.
  - intros H. rewrite H. reflexivity.
  - intros H. rewrite H. reflexivity.
  - intros H. apply Z.eqb_neq in H. rewrite H. reflexivity.
  - intros H. apply Z.eqb_neq in H. rewrite H. reflexivity.
  - intros evs.
    destruct (Interval (if Interval s =? 0 then setInterval s Hour else s) <=? 0);
      reflexivity.
Qed.

Lemma C6_witness :
  refreshInterval (newSource 0 0) = Hour
  /\ fetchTimeout (newSource 0 0) = 15 * Second
  /\ refreshInterval (newSource (1000 * Hour) 5) = 1000 * Hour
  /\ fetchTimeout (newSource 5 (1000 * Hour)) = 1000 * Hour.
Proof.
  split; [|split; [|split]].
  - apply (proj1 (C6_defaults_replace_zero_only (newSource 0 0))).
    reflexivity.
  - apply (proj1 (proj2 (C6_defaults_replace_zero_only (newSource 0 0)))).
    reflexivity.
  - apply (proj1 (proj2 (proj2 (C6_defaults_replace_zero_only
                                  (newSource (1000 * Hour) 5))))).
    vm_compute. discriminate.
  - apply (proj1 (proj2 (proj2 (proj2 (C6_defaults_replace_zero_only
                                         (newSource 5 (1000 * Hour))))))).
    vm_compute. discriminate.
Defined.

(** C6 as stated fails: a negative interval and a negative timeout are
    non-positive, yet the interval handed to the ticker is not one hour
    (the ticker panics on it) and the timeout is not fifteen seconds. *)
Lemma C6_counterexample :
  Interval (newSource (-1) (-1)) <= 0
  /\ refreshInterval (newSource (-1) (-1)) <> Hour
  /\ refreshLoop (newSource (-1) (-1)) [] = None
  /\ Timeout (newSource (-1) (-1)) <= 0
  /\ fetchTimeout (newSource (-1) (-1)) <> 15 * Second.
Proof.
  repeat split; try (simpl; lia); vm_compute; discriminate.
Qed.

(** ** Where the scanner's error is dropped *)

(** C3 (code at the failing input). When reading the v6 body fails, [fetch]
    still reports success with the prefixes read so far, so the cycle
    reports no error and the tick replaces a snapshot holding both families
    by one without any v6 prefix; when the read fails inside a line, the
    cut line is parsed and installed as the (much wider) prefix
    2400:cb00::/3. *)
Theorem C3_read_error_installs_partial_snapshot :
  Bufio.Scan "" (Some (TransportErr "context deadline exceeded"))
  = ([], Some (TransportErr "context deadline exceeded"))
  /\ fetch source_with_both_families net_v6_body_read_fails ipv6 = inl []
  /\ getPrefixes source_with_both_families net_v6_body_read_fails
     = inl [prefix_198_51_100_0_24]
  /\ ranges (fst (refreshTick source_with_both_families
                              net_v6_body_read_fails))
     = [prefix_198_51_100_0_24]
  /\ ranges (fst (refreshTick source_with_both_families
                              net_v6_body_truncated))
     = [prefix_198_51_100_0_24; prefix_2001_db8_32;
        PrefixFrom (AddrFrom16 [0x24; 0x00; 0xcb; 0x00; 0; 0; 0; 0;
                                0; 0; 0; 0; 0; 0; 0; 0]) 3].
Proof.
  repeat split; vm_compute; reflexivity.
Qed.

(** C7 (code at the failing input). The second line of the body is not a
    CIDR literal, yet [fetch] returns the first line's prefix and no error:
    the scanner stops with [ErrTooLong], which [fetch] never reads, and the
    valid line after it is lost as well. *)
Theorem C7_long_line_ends_body_without_error :
  is_ok (ParsePrefix (replicate (Z.to_nat Bufio.MaxScanTokenSize) "x")) = false
  /\ Bufio.Scan body_with_long_line None
     = (["198.51.100.0/24"], Some Bufio.ErrTooLong)
  /\ fetch (newSource 0 0) (fun _ _ => Body body_with_long_line None) ipv4
     = inl [prefix_198_51_100_0_24].
Proof.
  repeat split; vm_compute; reflexivity.
Qed.

(** ** The port text *)

Section ByteSearch.
Variable c : ascii.

Lemma LastIndexByteString_app_some (h p : string) :
  LastIndexByteString (h ++ String c p) c <> None.
Proof.
  induction h as [|a h IH]; simpl.
  - destruct (LastIndexByteString p c); [discriminate|].
    rewrite Ascii.eqb_refl. discriminate.
  - destruct (LastIndexByteString (h ++ String c p) c); [discriminate|].
    contradiction.
Qed.

Lemma IndexByteString_none_last (s : string) :
  IndexByteString s c = None -> LastIndexByteString s c = None.
Proof.
  induction s as [|a s IH]; simpl; [reflexivity|].
  destruct (Ascii.eqb a c); [discriminate|].
  destruct (IndexByteString s c); [discriminate|].
  intros _. rewrite IH; reflexivity.
Qed.

(** If nothing before the last [c] of [h ++ c :: p] is a [c], that last
    [c] is the one after [h]. *)
Lemma last_index_is_separator (h p : string) (i : nat) :
  LastIndexByteString (h ++ String c p) c = Some i ->
  IndexByteString (take i (h ++ String c p)) c = None ->
  take i (h ++ String c p) = h /\ drop (S i) (h ++ String c p) = p.
Proof.
  revert i. induction h as [|a h IH]; intros i; simpl.
  - destruct (LastIndexByteString p c) as [j|].
    + intros Hi. inversion Hi; subst. simpl.
      rewrite Ascii.eqb_refl. discriminate.
    + rewrite Ascii.eqb_refl. intros Hi. inversion Hi; subst.
      simpl. split; reflexivity.
  - destruct (LastIndexByteString (h ++ String c p) c) as [j|] eqn:Hl.
    + intros Hi. inversion Hi; subst. simpl.
      destruct (Ascii.eqb a c); [discriminate|].
      destruct (IndexByteString (take j (h ++ String c p)) c) eqn:Hx;
        [discriminate|].
      intros _. destruct (IH j eq_refl Hx) as [Ht Hd].
      rewrite Ht. split; [reflexivity | exact Hd].
    + exfalso. apply (LastIndexByteString_app_some h p). exact Hl.
Qed.
End ByteSearch.

Lemma starts_with_app (b : ascii) (h p : string) :
  starts_with "[" h = false ->
  Ascii.eqb b "[" = false ->
  starts_with "[" (h ++ String b p) = false.
Proof.
  destruct h as [|a h]; simpl; auto.
Qed.

(** An unbracketed [h:p] that splits gives back [h], which has no colon. *)
Lemma SplitHostPort_unbracketed (h p host port : string) :
  starts_with "[" h = false ->
  Net.SplitHostPort (h ++ String ":" p) = inl (host, port) ->
  host = h /\ port = p /\ IndexByteString h ":" = None.
Proof.
  intros Hb. unfold Net.SplitHostPort.
  rewrite (starts_with_app ":" h p Hb eq_refl).
  destruct (LastIndexByteString (h ++ String ":" p) ":") as [i|] eqn:Hl;
    [|discriminate].
  destruct (IndexByteString (take i (h ++ String ":" p)) ":") eqn:Hx;
    [discriminate|].
  destruct (last_index_is_separator ":" h p i Hl Hx) as [Ht Hd].
  unfold Net.bracketChecks.
  change (drop 0 (h ++ String ":" p)) with (h ++ String ":" p)%string.
  destruct (IndexByteString (h ++ String ":" p) "["); [discriminate|].
  destruct (IndexByteString (h ++ String ":" p) "]"); [discriminate|].
  rewrite Ht, Hd. rewrite Ht in Hx.
  intros H. inversion H; subst. auto.
Qed.

Lemma SplitHostPort_no_colon (h : string) :
  IndexByteString h ":" = None ->
  Net.SplitHostPort h = inr (AddrError Net.missingPort h).
Proof.
  intros H. unfold Net.SplitHostPort.
  rewrite (IndexByteString_none_last ":" h H). reflexivity.
Qed.

Lemma Match_depends_on_parsed_address
      (s : CloudflareIPRange) (r r' : Request) :
  parseIPZoneFromString (RemoteAddr r) = parseIPZoneFromString (RemoteAddr r') ->
  Match (mkMatcher (Some (asProvider s))) r
  = Match (mkMatcher (Some (asProvider s))) r'.
Proof.
  intros H. unfold Match. rewrite H. reflexivity.
Qed.

(** C10 (as amended). The port returned by the split is never looked at:
    the result is that of parsing the split's host alone.  For a host [h]
    that does not begin with '[' and any port text [p], whenever ["h:p"]
    splits, [parseIPZoneFromString] gives on ["h:p"] what it gives on [h],
    so [Match] decides the same for every port text and for no port. *)
Theorem C10_port_text_is_ignored :
  (forall address host port,
      Net.SplitHostPort address = inl (host, port) ->
      parseIPZoneFromString address = ParseAddr (fst (fst (Cut host "%"))))
  /\ (forall h p,
         starts_with "[" h = false ->
         is_ok (Net.SplitHostPort (h ++ ":" ++ p)) = true ->
         parseIPZoneFromString (h ++ ":" ++ p) = parseIPZoneFromString h)
  /\ (forall h p p' s,
         starts_with "[" h = false ->
         is_ok (Net.SplitHostPort (h ++ ":" ++ p)) = true ->
         is_ok (Net.SplitHostPort (h ++ ":" ++ p')) = true ->
         Match (mkMatcher (Some (asProvider s))) (mkRequest (h ++ ":" ++ p))
         = Match (mkMatcher (Some (asProvider s))) (mkRequest (h ++ ":" ++ p'))
         /\ Match (mkMatcher (Some (asProvider s))) (mkRequest (h ++ ":" ++ p))
            = Match (mkMatcher (Some (asProvider s))) (mkRequest h)).
Proof.
  assert (Hport : forall address host port,
             Net.SplitHostPort address = inl (host, port) ->
             parseIPZoneFromString address
             = ParseAddr (fst (fst (Cut host "%")))).
  { intros address host port Hs. unfold parseIPZoneFromString. rewrite Hs.
    destruct (Cut host "%") as [[x zn] b]. reflexivity. }
  assert (Hsame : forall h p,
             starts_with "[" h = false ->
             is_ok (Net.SplitHostPort (h ++ ":" ++ p)) = true ->
             parseIPZoneFromString (h ++ ":" ++ p) = parseIPZoneFromString h).
  { intros h p Hb Hok. change (":" ++ p)%string with (String ":" p) in *.
    destruct (Net.SplitHostPort (h ++ String ":" p)) as [[host port]|e] eqn:Hs;
      [|discriminate].
    destruct (SplitHostPort_unbracketed h p host port Hb Hs) as (-> & -> & Hn).
    rewrite (Hport _ _ _ Hs).
    unfold parseIPZoneFromString. rewrite (SplitHostPort_no_colon h Hn).
    destruct (Cut h "%") as [[x zn] b]. reflexivity. }
  split; [exact Hport|]. split; [exact Hsame|].
  intros h p p' s Hb Hok Hok'. split.
  - apply Match_depends_on_parsed_address. cbn [RemoteAddr].
    rewrite (Hsame h p Hb Hok), (Hsame h p' Hb Hok'). reflexivity.
  - apply Match_depends_on_parsed_address. cbn [RemoteAddr].
    apply (Hsame h p Hb Hok).
Qed.

Lemma C10_witness :
  parseIPZoneFromString "1.2.3.4:garbage" = parseIPZoneFromString "1.2.3.4"
  /\ parseIPZoneFromString "1.2.3.4:garbage" = inl (AddrFrom4 1 2 3 4).
Proof.
  split.
  - apply (proj1 (proj2 C10_port_text_is_ignored) "1.2.3.4" "garbage");
      vm_compute; reflexivity.
  - vm_compute. reflexivity.
Defined.

(** C10 as stated fails for a bracketed host: ["[1.2.3.4]:80"] splits and
    parses to 1.2.3.4, while ["[1.2.3.4]"] alone does not parse; with the
    snapshot [1.2.3.0/24] the first request matches and the second does
    not. *)
Lemma C10_counterexample :
  is_ok (Net.SplitHostPort ("[1.2.3.4]" ++ ":" ++ "80")) = true
  /\ parseIPZoneFromString ("[1.2.3.4]" ++ ":" ++ "80") = inl (AddrFrom4 1 2 3 4)
  /\ is_ok (parseIPZoneFromString "[1.2.3.4]") = false
  /\ parseIPZoneFromString ("[1.2.3.4]" ++ ":" ++ "80")
     <> parseIPZoneFromString "[1.2.3.4]"
  /\ fst (Match (mkMatcher (Some (asProvider
                   (mkSource 0 0 [PrefixFrom (AddrFrom4 1 2 3 0) 24]))))
                (mkRequest ("[1.2.3.4]" ++ ":" ++ "80"))) = true
  /\ fst (Match (mkMatcher (Some (asProvider
                   (mkSource 0 0 [PrefixFrom (AddrFrom4 1 2 3 0) 24]))))
                (mkRequest "[1.2.3.4]")) = false.
Proof.
  repeat split; try (vm_compute; reflexivity).
  vm_compute. discriminate.
Qed.

(** ** Containment *)

Lemma testbit_all64 (j : Z) :
  0 <= j -> Z.testbit all64 j = (j <? 64).
Proof.
  intros Hj. change all64 with (Z.ones 64).
  destruct (Z.ltb_spec j 64).
  - apply Z.ones_spec_low. lia.
  - apply Z.ones_spec_high. lia.
Qed.

Lemma testbit_shl64_all64 (k j : Z) :
  0 <= k -> 0 <= j ->
  Z.testbit (shl64 all64 k) j = (k <=? j) && (j <? 64).
Proof.
  intros Hk Hj. unfold shl64.
  destruct (Z.ltb_spec j 64) as [Hlt|Hge].
  - rewrite Z.mod_pow2_bits_low by lia.
    rewrite Z.shiftl_spec by lia.
    destruct (Z.leb_spec k j) as [Hle|Hgt].
    + rewrite testbit_all64 by lia. simpl.
      destruct (Z.ltb_spec (j - k) 64); [reflexivity|lia].
    + apply Z.testbit_neg_r. lia.
  - rewrite Z.mod_pow2_bits_high by lia. rewrite andb_false_r. reflexivity.
Qed.

Lemma land_63_small (k : Z) : 0 <= k < 64 -> Z.land k 63 = k.
Proof.
  intros Hk. change 63 with (Z.ones 6). rewrite Z.land_ones by lia.
  apply Z.mod_small. change (2 ^ 6) with 64. lia.
Qed.

Lemma lxor_land_zero_iff (x y m : Z) :
  Z.land (Z.lxor x y) m = 0 <-> Z.land x m = Z.land y m.
Proof.
  split; intros H; apply Z.bits_inj; intros j.
  - assert (Hj : Z.testbit (Z.land (Z.lxor x y) m) j = false)
      by (rewrite H; apply Z.bits_0).
    rewrite Z.land_spec, Z.lxor_spec in Hj. rewrite !Z.land_spec.
    destruct (Z.testbit x j), (Z.testbit y j), (Z.testbit m j);
      simpl in *; congruence.
  - assert (Hj : Z.testbit (Z.land x m) j = Z.testbit (Z.land y m) j)
      by (rewrite H; reflexivity).
    rewrite !Z.land_spec in Hj. rewrite Z.land_spec, Z.lxor_spec, Z.bits_0.
    destruct (Z.testbit x j), (Z.testbit y j), (Z.testbit m j);
      simpl in *; congruence.
Qed.

(** The IPv4 comparison of [Contains] against masking with the low half of
    [mask6 (bits + 96)], for two stored IPv4-mapped values. *)
Lemma v4_shift_compare_iff (la lp bits : Z) :
  Z.shiftr la 32 = Z.shiftr lp 32 ->
  0 <= bits <= 32 ->
  (shr64 (Z.lxor la lp) (Z.land (32 - bits) 63) mod 2 ^ 32 = 0 <->
   Z.land la (shl64 all64 (128 - (bits + 96)))
   = Z.land lp (shl64 all64 (128 - (bits + 96)))).
Proof.
  intros Hhi Hb. rewrite land_63_small by lia.
  replace (128 - (bits + 96)) with (32 - bits) by lia.
  set (k := 32 - bits). assert (Hk : 0 <= k <= 32) by (unfold k; lia).
  unfold shr64. split.
  - intros H0. apply Z.bits_inj'. intros j Hj.
    rewrite !Z.land_spec, testbit_shl64_all64 by lia.
    destruct (Z.leb_spec k j) as [Hkj|Hkj]; simpl;
      [|rewrite !andb_false_r; reflexivity].
    destruct (Z.ltb_spec j 64) as [Hj64|Hj64];
      [|rewrite !andb_false_r; reflexivity].
    rewrite !andb_true_r.
    destruct (Z.ltb_spec j 32) as [Hj32|Hj32]; [|clear H0].
    + assert (Hbit : Z.testbit
                       (Z.shiftr (Z.lxor la lp) k mod 2 ^ 32) (j - k) = false)
        by (rewrite H0; apply Z.bits_0).
      rewrite Z.mod_pow2_bits_low in Hbit by lia.
      rewrite Z.shiftr_spec in Hbit by lia.
      replace (j - k + k) with j in Hbit by lia.
      rewrite Z.lxor_spec in Hbit.
      destruct (Z.testbit la j), (Z.testbit lp j); simpl in Hbit;
        congruence.
    + assert (Hbit : Z.testbit (Z.shiftr la 32) (j - 32)
                     = Z.testbit (Z.shiftr lp 32) (j - 32))
        by (rewrite Hhi; reflexivity).
      rewrite !Z.shiftr_spec in Hbit by lia.
      replace (j - 32 + 32) with j in Hbit by lia. exact Hbit.
  - intros Heq. apply Z.bits_inj'. intros t Ht. rewrite Z.bits_0.
    destruct (Z.ltb_spec t 32) as [Ht32|Ht32];
      [|apply Z.mod_pow2_bits_high; lia].
    rewrite Z.mod_pow2_bits_low by lia.
    rewrite Z.shiftr_spec by lia. rewrite Z.lxor_spec.
    assert (Hbit : Z.testbit (Z.land la (shl64 all64 k)) (t + k)
                   = Z.testbit (Z.land lp (shl64 all64 k)) (t + k))
      by (rewrite Heq; reflexivity).
    rewrite !Z.land_spec, testbit_shl64_all64 in Hbit by lia.
    destruct (Z.leb_spec k (t + k)); [|lia].
    destruct (Z.ltb_spec (t + k) 64); [|lia].
    simpl in Hbit. rewrite !andb_true_r in Hbit. rewrite Hbit.
    apply xorb_nilpotent.
Qed.

Lemma option_eq_dec_family (x y : option family) : {x = y} + {x <> y}.
Proof. repeat decide equality. Qed.

Lemma family_differs_not_contained (p : Prefix) (a : Addr) :
  family_of a <> family_of (ip p) -> Contains p a = false.
Proof.
  unfold Contains, family_of, PrefixAddr, BitLen, hasZone.
  destruct (negb (IsValid p)); [reflexivity|].
  destruct (z a), (z (ip p)); simpl; intros H; try reflexivity;
    try (exfalso; apply H; reflexivity).
Qed.

Lemma Contains_iff_spec (p : Prefix) (a : Addr) :
  Prefix_ok p = true -> Addr_ok a = true ->
  (Contains p a = true <-> contains_spec p a).
Proof.
  intros Hp Ha.
  destruct (option_eq_dec_family (family_of a) (family_of (ip p))) as [Hf|Hf].
  2:{ rewrite (family_differs_not_contained p a Hf). split; [discriminate|].
      intros [Hf' _]. contradiction. }
  unfold Prefix_ok in Hp.
  repeat (apply andb_prop in Hp; destruct Hp as [Hp ?]).
  destruct p as [[[ph pl] pz] b], a as [[ah al] az].
  unfold contains_spec, network, mask_to_length, Contains, IsValid, Bits,
    PrefixAddr, hasZone, BitLen, Is4, isZero, family_of, Addr_ok, mask6,
    u128_isZero, u128_and, u128_xor in *.
  cbn [ip bitsPlusOne addr z hi lo] in *.
  rewrite Hp. cbn [negb orb].
  assert (Hb : 0 <= b - 1) by (apply Z.ltb_lt in Hp; lia).
  destruct pz as [| | |zn]; cbn [zone_eqb negb andb] in *; try discriminate;
    destruct az as [| | |an]; cbn [zone_eqb negb andb orb] in *;
    try discriminate.
  - (* IPv4 prefix, IPv4 address *)
    change (32 =? 0) with false. change (32 =? 32) with true.
    cbn [negb orb].
    apply andb_prop in Ha; destruct Ha as [Hah Hal].
    apply andb_prop in H1; destruct H1 as [Hph Hpl].
    apply Z.eqb_eq in Hah, Hal, Hph, Hpl. subst ah ph.
    apply Z.leb_le in H2.
    rewrite Z.eqb_eq, (v4_shift_compare_iff al pl (b - 1)) by (try congruence; lia).
    rewrite !Z.land_0_l. split.
    + intros Hl. split; [reflexivity|]. rewrite Hl. reflexivity.
    + intros [_ He]. injection He as Hl. exact Hl.
  - (* IPv6 prefix, IPv6 address without zone *)
    change (128 =? 0) with false. change (128 =? 128) with true.
    cbn [negb orb].
    rewrite andb_true_iff, !Z.eqb_eq, !lxor_land_zero_iff. split.
    + intros [Hh Hl]. split; [reflexivity|]. rewrite Hh, Hl. reflexivity.
    + intros [_ He]. injection He as Hh Hl. split; assumption.
  - (* IPv6 prefix, zoned address *)
    split; [discriminate|]. intros [_ He]. discriminate He.
Qed.

Lemma u64_ok_range (x : Z) : u64_ok x = true <-> 0 <= x < 2 ^ 64.
Proof.
  unfold u64_ok. rewrite andb_true_iff, Z.leb_le, Z.ltb_lt. reflexivity.
Qed.

Lemma testbit_hi_mask (n j : Z) :
  0 <= n -> 0 <= j ->
  Z.testbit (not64 (shr64 all64 n)) j = (j <? 64) && (64 <=? j + n).
Proof.
  intros Hn Hj. unfold not64, shr64.
  rewrite Z.lxor_spec, Z.shiftr_spec, !testbit_all64 by lia.
  destruct (Z.ltb_spec j 64), (Z.ltb_spec (j + n) 64),
    (Z.leb_spec 64 (j + n)); simpl; try reflexivity; lia.
Qed.

Lemma land_all64 (x : Z) : 0 <= x < 2 ^ 64 -> Z.land x all64 = x.
Proof.
  intros Hx. change all64 with (Z.ones 64).
  rewrite Z.land_ones by lia. apply Z.mod_small. exact Hx.
Qed.

Lemma Addr_ok_range (x : Addr) :
  Addr_ok x = true ->
  0 <= hi (addr x) < 2 ^ 64 /\ 0 <= lo (addr x) < 2 ^ 64.
Proof.
  unfold Addr_ok. destruct x as [[h l] zx]. cbn [z addr hi lo].
  destruct zx; intros H.
  - apply andb_prop in H. destruct H as [Hh Hl].
    apply Z.eqb_eq in Hh, Hl. subst. split; split; lia.
  - apply andb_prop in H. destruct H as [Hh Hl].
    apply Z.eqb_eq in Hh, Hl. subst h.
    rewrite Z.shiftr_div_pow2 in Hl by lia.
    pose proof (Z.div_mod l (2 ^ 32) ltac:(lia)) as Hd.
    pose proof (Z.mod_pos_bound l (2 ^ 32) ltac:(lia)) as Hm.
    rewrite Hl in Hd. split; [split; lia|].
    change (2 ^ 64) with 18446744073709551616.
    change (2 ^ 32) with 4294967296 in *. lia.
  - apply andb_prop in H. destruct H as [Hh Hl].
    apply u64_ok_range in Hh, Hl. auto.
  - apply andb_prop in H. destruct H as [H _].
    apply andb_prop in H. destruct H as [Hh Hl].
    apply u64_ok_range in Hh, Hl. auto.
Qed.

Lemma Is4_Is6_family (a b : Addr) :
  Is4 a = true -> Is6 b = true -> family_of a <> family_of b.
Proof.
  unfold Is4, Is6, family_of.
  destruct (z a), (z b); simpl; intros; congruence.
Qed.

Lemma lor_shiftl_add (x k low : Z) :
  0 <= k -> 0 <= low < 2 ^ k ->
  Z.lor (Z.shiftl x k) low = x * 2 ^ k + low.
Proof.
  intros Hk Hlow.
  assert (Hd : Z.land (Z.shiftl x k) low = 0).
  { apply Z.bits_inj'. intros j Hj. rewrite Z.land_spec, Z.bits_0.
    destruct (Z.ltb_spec j k) as [Hlt|Hge].
    - rewrite Z.shiftl_spec_low by exact Hlt. reflexivity.
    - rewrite <- (Z.mod_small low (2 ^ k)) by exact Hlow.
      rewrite Z.mod_pow2_bits_high by lia. apply andb_false_r. }
  rewrite <- (Z.lxor_lor _ _ Hd), <- (Z.add_nocarry_lxor _ _ Hd).
  rewrite Z.shiftl_mul_pow2 by exact Hk. reflexivity.
Qed.

(** The number of an IPv4 address is the number its four bytes spell. *)
Lemma value_of_AddrFrom4 (a b c d : Z) :
  0 <= a < 256 -> 0 <= b < 256 -> 0 <= c < 256 -> 0 <= d < 256 ->
  value_of (AddrFrom4 a b c d)
  = mkValue (Some IPv4) (a * 2 ^ 24 + b * 2 ^ 16 + c * 2 ^ 8 + d) "".
Proof.
  intros Ha Hb Hc Hd. unfold value_of, AddrFrom4, family_of.
  cbn [z addr hi lo]. f_equal.
  rewrite !Z.mod_small with (b := 256) by assumption.
  rewrite <- !Z.lor_assoc.
  change 0xffff00000000 with (Z.shiftl 0xffff 32).
  assert (Hv : Z.lor (Z.shiftl a 24)
                     (Z.lor (Z.shiftl b 16) (Z.lor (Z.shiftl c 8) d))
               = a * 2 ^ 24 + b * 2 ^ 16 + c * 2 ^ 8 + d).
  { rewrite (lor_shiftl_add c 8 d) by (simpl; lia).
    rewrite (lor_shiftl_add b 16) by (simpl; lia).
    rewrite (lor_shiftl_add a 24) by (simpl; lia). lia. }
  rewrite Hv.
  rewrite lor_shiftl_add by (simpl; lia).
  rewrite Z.add_comm, Z.mod_add by (simpl; lia).
  apply Z.mod_small. simpl. lia.
Qed.

Lemma beUint64_fold_number (bs : list Z) (acc : Z) :
  Forall (fun b => 0 <= b < 256) bs ->
  (List.length bs <= 8)%nat ->
  0 <= acc < 2 ^ (64 - 8 * Z.of_nat (List.length bs)) ->
  fold_left (fun a b => Z.lor (shl64 a 8) (b mod 256)) bs acc
  = fold_left (fun a b => a * 256 + b) bs acc.
Proof.
  intros Hbs. revert acc. induction Hbs as [|b bs Hb _ IH]; intros acc Hlen Hacc;
    [reflexivity|].
  cbn [fold_left]. cbn [List.length] in Hlen, Hacc.
  set (m := 64 - 8 * Z.of_nat (S (List.length bs))) in *.
  assert (Hm : 0 <= m) by (unfold m; lia).
  assert (HP : 0 < 2 ^ m) by (apply Z.pow_pos_nonneg; lia).
  assert (H8 : 2 ^ (m + 8) = 2 ^ m * 256)
    by (rewrite Z.pow_add_r by lia; reflexivity).
  assert (H64 : 2 ^ (m + 8) <= 2 ^ 64)
    by (apply Z.pow_le_mono_r; unfold m; lia).
  assert (Hstep : Z.lor (shl64 acc 8) (b mod 256) = acc * 256 + b).
  { unfold shl64. rewrite (Z.mod_small b 256) by exact Hb.
    rewrite (Z.mod_small (Z.shiftl acc 8))
      by (rewrite Z.shiftl_mul_pow2 by lia; change (2 ^ 8) with 256; lia).
    rewrite lor_shiftl_add by (simpl; lia). reflexivity. }
  rewrite Hstep. apply IH; [lia|].
  replace (64 - 8 * Z.of_nat (List.length bs)) with (m + 8)
    by (unfold m; lia).
  lia.
Qed.

Lemma be_number_fold (bs : list Z) (acc : Z) :
  fold_left (fun a b => a * 256 + b) bs acc
  = acc * 256 ^ Z.of_nat (List.length bs) + be_number bs.
Proof.
  unfold be_number. revert acc. induction bs as [|b bs IH]; intros acc.
  - simpl. lia.
  - cbn [fold_left List.length]. rewrite (IH (acc * 256 + b)), (IH (0 * 256 + b)).
    rewrite Nat2Z.inj_succ, Z.pow_succ_r by lia. lia.
Qed.

(** The number of an IPv6 address is the number its sixteen bytes spell,
    the first byte the most significant. *)
Lemma value_of_AddrFrom16 (bs : list Z) :
  List.length bs = 16%nat ->
  Forall (fun b => 0 <= b < 256) bs ->
  value_of (AddrFrom16 bs) = mkValue (Some IPv6) (be_number bs) "".
Proof.
  intros Hlen Hbs. unfold value_of, AddrFrom16, family_of, beUint64.
  cbn [z addr hi lo]. f_equal.
  assert (H1 : List.length (firstn 8 bs) = 8%nat)
    by (rewrite length_firstn; lia).
  assert (H2 : List.length (skipn 8 bs) = 8%nat)
    by (rewrite length_skipn; lia).
  rewrite <- (firstn_skipn 8 bs) in Hbs. apply Forall_app in Hbs.
  destruct Hbs as [Hf Hs].
  rewrite !beUint64_fold_number
    by (try assumption; rewrite ?H1, ?H2; simpl; lia).
  assert (Hn : be_number bs
               = be_number (firstn 8 bs) * 256 ^ 8 + be_number (skipn 8 bs)).
  { rewrite <- (firstn_skipn 8 bs) at 1. unfold be_number at 1.
    rewrite fold_left_app, be_number_fold, H2. reflexivity. }
  rewrite Hn, !be_number_fold, H1, H2. simpl. lia.
Qed.

Lemma testbit_u64_high (x j : Z) :
  0 <= x < 2 ^ 64 -> 64 <= j -> Z.testbit x j = false.
Proof.
  intros Hx Hj. rewrite <- (Z.mod_small x (2 ^ 64)) by exact Hx.
  apply Z.mod_pow2_bits_high. lia.
Qed.

(** Agreeing under a mask that selects the bits from [t] up is agreeing
    after division by [2 ^ t]. *)
Lemma high_bits_eq (x y m t : Z) :
  0 <= t -> 0 <= x < 2 ^ 64 -> 0 <= y < 2 ^ 64 ->
  (forall j, 0 <= j -> Z.testbit m j = (t <=? j) && (j <? 64)) ->
  (Z.land x m = Z.land y m <-> x / 2 ^ t = y / 2 ^ t).
Proof.
  intros Ht Hx Hy Hm. rewrite <- !Z.shiftr_div_pow2 by lia. split.
  - intros H. apply Z.bits_inj'. intros j Hj.
    rewrite !Z.shiftr_spec by lia.
    destruct (Z.ltb_spec (j + t) 64) as [Hlt|Hge].
    + assert (Hb : Z.testbit (Z.land x m) (j + t)
                   = Z.testbit (Z.land y m) (j + t))
        by (rewrite H; reflexivity).
      rewrite !Z.land_spec, Hm in Hb by lia.
      destruct (Z.leb_spec t (j + t)); [|lia].
      destruct (Z.ltb_spec (j + t) 64); [|lia].
      simpl in Hb. rewrite !andb_true_r in Hb. exact Hb.
    + rewrite !testbit_u64_high by (assumption || lia). reflexivity.
  - intros H. apply Z.bits_inj'. intros j Hj.
    rewrite !Z.land_spec, Hm by lia.
    destruct (Z.leb_spec t j) as [Htj|Htj]; simpl;
      [|rewrite !andb_false_r; reflexivity].
    destruct (Z.ltb_spec j 64); [|rewrite !andb_false_r; reflexivity].
    rewrite !andb_true_r.
    assert (Hb : Z.testbit (Z.shiftr x t) (j - t)
                 = Z.testbit (Z.shiftr y t) (j - t))
      by (rewrite H; reflexivity).
    rewrite !Z.shiftr_spec in Hb by lia.
    replace (j - t + t) with j in Hb by lia. exact Hb.
Qed.

Lemma same_multiple_iff (x y k : Z) :
  0 <= k -> (x / 2 ^ k * 2 ^ k = y / 2 ^ k * 2 ^ k <-> x / 2 ^ k = y / 2 ^ k).
Proof.
  intros Hk. apply Z.mul_cancel_r.
  pose proof (Z.pow_pos_nonneg 2 k ltac:(lia) Hk). lia.
Qed.

(** The leading bits of a 128-bit number held in two halves. *)
Lemma number128_div (h l k : Z) :
  0 <= l < 2 ^ 64 -> 0 <= k <= 128 ->
  (h * 2 ^ 64 + l) / 2 ^ k
  = if k <? 64 then h * 2 ^ (64 - k) + l / 2 ^ k else h / 2 ^ (k - 64).
Proof.
  intros Hl Hk. destruct (Z.ltb_spec k 64) as [Hlt|Hge].
  - replace (2 ^ 64) with (2 ^ (64 - k) * 2 ^ k)
      by (rewrite <- Z.pow_add_r by lia; f_equal; lia).
    rewrite Z.mul_assoc. apply Z.div_add_l.
    pose proof (Z.pow_pos_nonneg 2 k ltac:(lia) ltac:(lia)). lia.
  - replace (2 ^ k) with (2 ^ 64 * 2 ^ (k - 64))
      by (rewrite <- Z.pow_add_r by lia; f_equal; lia).
    rewrite <- Z.div_div
      by (try apply Z.pow_pos_nonneg; try apply Z.pow_nonzero; lia).
    rewrite Z.div_add_l by (apply Z.pow_nonzero; lia).
    rewrite (Z.div_small l) by exact Hl. rewrite Z.add_0_r. reflexivity.
Qed.

(** The two halves of [mask6 n] against the number: for IPv6. *)
Lemma v6_masks_iff_number (ha la hp lp n : Z) :
  0 <= ha < 2 ^ 64 -> 0 <= la < 2 ^ 64 ->
  0 <= hp < 2 ^ 64 -> 0 <= lp < 2 ^ 64 ->
  0 <= n <= 128 ->
  (u128_and (mkU128 ha la) (mask6 n) = u128_and (mkU128 hp lp) (mask6 n)
   <-> (ha * 2 ^ 64 + la) / 2 ^ (128 - n) * 2 ^ (128 - n)
       = (hp * 2 ^ 64 + lp) / 2 ^ (128 - n) * 2 ^ (128 - n)).
Proof.
  intros Hha Hla Hhp Hlp Hn.
  rewrite same_multiple_iff by lia.
  rewrite !number128_div by (assumption || lia).
  unfold u128_and, mask6. cbn [hi lo].
  assert (Hsplit : forall a b c d : Z,
             mkU128 a b = mkU128 c d <-> a = c /\ b = d).
  { intros a b c d. split.
    - intros H. split; [exact (f_equal hi H) | exact (f_equal lo H)].
    - intros [-> ->]. reflexivity. }
  rewrite Hsplit.
  destruct (Z.ltb_spec (128 - n) 64) as [Hlt|Hge].
  - (* more than 64 bits: all of the high half, the top of the low half *)
    rewrite (high_bits_eq ha hp _ 0) by
      (try assumption; try lia;
       intros j Hj; rewrite testbit_hi_mask by lia;
       destruct (Z.ltb_spec j 64), (Z.leb_spec 64 (j + n)),
         (Z.leb_spec 0 j); simpl; try reflexivity; lia).
    rewrite (high_bits_eq la lp _ (128 - n)) by
      (try assumption; try lia;
       intros j Hj; apply testbit_shl64_all64; lia).
    change (2 ^ 0) with 1. rewrite !Z.div_1_r.
    replace (64 - (128 - n)) with (n - 64) by lia.
    set (M := 2 ^ (n - 64)).
    assert (HM : 0 < M) by (apply Z.pow_pos_nonneg; lia).
    assert (Hq : forall l, 0 <= l < 2 ^ 64 -> 0 <= l / 2 ^ (128 - n) < M).
    { intros l Hl. split.
      - apply Z.div_pos; [lia|]. apply Z.pow_pos_nonneg; lia.
      - apply Z.div_lt_upper_bound; [apply Z.pow_pos_nonneg; lia|].
        unfold M. rewrite <- Z.pow_add_r by lia.
        replace (128 - n + (n - 64)) with 64 by lia. lia. }
    pose proof (Hq la Hla) as Hqa. pose proof (Hq lp Hlp) as Hqp.
    split.
    + intros [-> ->]. reflexivity.
    + intros H.
      assert (Hh : ha = hp).
      { assert (Hd : (ha * M + la / 2 ^ (128 - n)) / M
                     = (hp * M + lp / 2 ^ (128 - n)) / M)
          by (rewrite H; reflexivity).
        rewrite !Z.div_add_l, !Z.div_small in Hd by lia. lia. }
      subst hp. split; [reflexivity|]. lia.
  - (* at most 64 bits: the top of the high half only *)
    rewrite (high_bits_eq ha hp _ (64 - n)) by
      (try assumption; try lia;
       intros j Hj; rewrite testbit_hi_mask by lia;
       destruct (Z.ltb_spec j 64), (Z.leb_spec 64 (j + n)),
         (Z.leb_spec (64 - n) j); simpl; try reflexivity; lia).
    replace (128 - n - 64) with (64 - n) by lia.
    split; [tauto|]. intros H. split; [exact H|].
    apply Z.bits_inj'. intros j Hj.
    rewrite !Z.land_spec, testbit_shl64_all64 by lia.
    destruct (Z.leb_spec (128 - n) j), (Z.ltb_spec j 64); simpl;
      rewrite ?andb_false_r; try reflexivity; lia.
Qed.

(** The low half of [mask6 (n + 96)] against the 32-bit number: for
    IPv4. *)
Lemma v4_mask_iff_number (la lp n : Z) :
  Z.shiftr la 32 = 0xffff -> Z.shiftr lp 32 = 0xffff ->
  0 <= n <= 32 ->
  (Z.land la (lo (mask6 (n + 96))) = Z.land lp (lo (mask6 (n + 96)))
   <-> (la mod 2 ^ 32) / 2 ^ (32 - n) * 2 ^ (32 - n)
       = (lp mod 2 ^ 32) / 2 ^ (32 - n) * 2 ^ (32 - n)).
Proof.
  intros Ha Hp Hn.
  assert (Hr : forall l, Z.shiftr l 32 = 0xffff ->
                         0 <= l < 2 ^ 64
                         /\ l / 2 ^ (32 - n)
                            = 0xffff * 2 ^ n + (l mod 2 ^ 32) / 2 ^ (32 - n)).
  { intros l Hl. rewrite Z.shiftr_div_pow2 in Hl by lia.
    pose proof (Z.div_mod l (2 ^ 32) ltac:(lia)) as Hd.
    pose proof (Z.mod_pos_bound l (2 ^ 32) ltac:(lia)) as Hm.
    rewrite Hl in Hd. split.
    - change (2 ^ 64) with 18446744073709551616.
      change (2 ^ 32) with 4294967296 in *. lia.
    - rewrite Hd at 1.
      replace (2 ^ 32 * 65535) with (0xffff * 2 ^ n * 2 ^ (32 - n)).
      + apply Z.div_add_l.
        pose proof (Z.pow_pos_nonneg 2 (32 - n) ltac:(lia) ltac:(lia)). lia.
      + rewrite <- Z.mul_assoc, <- Z.pow_add_r by lia.
        replace (n + (32 - n)) with 32 by lia. lia. }
  destruct (Hr la Ha) as [Hra Hda]. destruct (Hr lp Hp) as [Hrp Hdp].
  rewrite same_multiple_iff by lia.
  unfold mask6. cbn [lo].
  rewrite (high_bits_eq la lp _ (32 - n)) by
    (try assumption; try lia;
     intros j Hj; rewrite testbit_shl64_all64 by lia;
     replace (128 - (n + 96)) with (32 - n) by lia; reflexivity).
  rewrite Hda, Hdp. lia.
Qed.

(** [Contains] against the specification's wording, through the masked
    form. *)
Lemma Contains_iff_in_prefix (p : Prefix) (a : Addr) :
  Prefix_ok p = true -> Addr_ok a = true ->
  (Contains p a = true <-> in_prefix p a).
Proof.
  intros Hp Ha. rewrite (Contains_iff_spec p a Hp Ha).
  pose proof (Addr_ok_range a Ha) as [Hah Hal].
  unfold Prefix_ok in Hp.
  repeat (apply andb_prop in Hp; destruct Hp as [Hp ?]).
  pose proof (Addr_ok_range (ip p) H1) as [Hph Hpl].
  apply Z.ltb_lt in Hp. apply Z.leb_le in H2.
  destruct p as [[[ph pl] pz] b], a as [[ah al] az].
  unfold contains_spec, network, mask_to_length, in_prefix, network_value,
    keep_leading_bits, value_of, family_of, family_width, Bits, BitLen,
    Is4, isZero, hasZone, Addr_ok in *.
  cbn [ip bitsPlusOne addr z hi lo val_family val_number val_zone] in *.
  assert (Hv : forall f n s f' n' s',
             mkValue f n s = mkValue f' n' s'
             <-> f = f' /\ n = n' /\ s = s').
  { intros f n s f' n' s'. split.
    - intros E. repeat split;
        [exact (f_equal val_family E) | exact (f_equal val_number E)
         | exact (f_equal val_zone E)].
    - intros (-> & -> & ->). reflexivity. }
  assert (Hd : forall u w u' w',
             mkAddr u w = mkAddr u' w' <-> u = u' /\ w = w').
  { intros u w u' w'. split.
    - intros E. split; [exact (f_equal addr E) | exact (f_equal z E)].
    - intros [-> ->]. reflexivity. }
  rewrite Hv, Hd.
  destruct pz as [| | |zn]; cbn [zone_eqb negb andb] in *; try discriminate;
    destruct az as [| | |an]; cbn [zone_eqb negb andb] in *;
    try (split; intros [E _]; discriminate E).
  - (* IPv4 prefix, IPv4 address *)
    apply andb_prop in Ha; destruct Ha as [Ha0 Ha1].
    apply andb_prop in H1; destruct H1 as [Hp0 Hp1].
    apply Z.eqb_eq in Ha0, Ha1, Hp0, Hp1. subst ah ph.
    rewrite <- (v4_mask_iff_number al pl (b - 1)) by (assumption || lia).
    unfold u128_and. cbn [hi lo]. rewrite !Z.land_0_l. split.
    + intros [_ [E _]]. repeat split. exact (f_equal lo E).
    + intros [_ [_ [E _]]]. repeat split. rewrite E. reflexivity.
  - (* IPv6 prefix, IPv6 address without zone *)
    rewrite <- (v6_masks_iff_number ah al ph pl (b - 1))
      by (assumption || lia).
    tauto.
  - (* IPv6 prefix, zoned address *)
    apply andb_prop in Ha; destruct Ha as [_ Hne].
    apply negb_true_iff in Hne. apply String.eqb_neq in Hne.
    split.
    + intros [_ [_ E]]. discriminate E.
    + intros [_ [_ [_ E]]]. contradiction.
Qed.

(** C9. For every valid prefix [p] and well-formed address [a],
    [Contains p a] holds exactly when [a] is of the family of [p] and the
    number of [a] with all but its leading [Bits p] bits cleared is the
    number of [p]'s address cleared in the same way, its network value
    (the zone, being part of the value, must agree too, so an address that
    carries a zone is in no prefix).  An IPv4 address is in no IPv6 prefix
    and an IPv6 address in no IPv4 prefix, and a snapshot holding only
    prefixes of the other family never makes the matcher's loop succeed. *)
Theorem C9_Contains_is_family_and_masked_equality (p : Prefix) (a : Addr) :
  Prefix_ok p = true -> Addr_ok a = true ->
  (Contains p a = true <-> in_prefix p a)
  /\ (Is4 a = true -> Is6 (ip p) = true -> Contains p a = false)
  /\ (Is6 a = true -> Is4 (ip p) = true -> Contains p a = false)
  /\ (hasZone a = true -> Contains p a = false)
  /\ (forall cidrs,
        (forall q, In q cidrs -> family_of (ip q) <> family_of a) ->
        Match_loop cidrs a = false).
Proof.
  intros Hp Ha. split; [apply Contains_iff_in_prefix; assumption|].
  split; [|split; [|split]].
  - intros H4 H6. apply family_differs_not_contained.
    apply Is4_Is6_family; assumption.
  - intros H6 H4. apply family_differs_not_contained.
    intros Hf. apply (Is4_Is6_family (ip p) a H4 H6). symmetry. exact Hf.
  - intros Hz. unfold Contains. rewrite Hz, orb_true_r. reflexivity.
  - intros cidrs Hall. induction cidrs as [|q rest IH]; [reflexivity|].
    simpl. rewrite (family_differs_not_contained q a).
    + apply IH. intros q' Hq'. apply Hall. right. exact Hq'.
    + intros Hf. apply (Hall q (or_introl eq_refl)). symmetry. exact Hf.
Qed.

Lemma C9_witness :
  Contains prefix_2001_db8_32 addr_2001_db8__1 = true
  /\ ~ in_prefix prefix_2001_db8_32 addr_fe80__1
  /\ Contains prefix_198_51_100_0_24 addr_198_51_100_42 = true
  /\ Contains prefix_2001_db8_32 addr_198_51_100_42 = false.
Proof.
  split; [|split; [|split]].
  - apply (proj1 (C9_Contains_is_family_and_masked_equality
                    prefix_2001_db8_32 addr_2001_db8__1 eq_refl eq_refl)).
    split; vm_compute; reflexivity.
  - intros H.
    apply (proj1 (C9_Contains_is_family_and_masked_equality
                    prefix_2001_db8_32 addr_fe80__1 eq_refl eq_refl)) in H.
    vm_compute in H. discriminate H.
  - apply (proj1 (C9_Contains_is_family_and_masked_equality
                    prefix_198_51_100_0_24 addr_198_51_100_42
                    eq_refl eq_refl)).
    split; vm_compute; reflexivity.
  - apply (proj1 (proj2 (C9_Contains_is_family_and_masked_equality
                           prefix_2001_db8_32 addr_198_51_100_42
                           eq_refl eq_refl))); vm_compute; reflexivity.
Defined.

(** ** What the parsers build *)

Ltac break_match_hyp H :=
  repeat match type of H with
         | context [match ?x with _ => _ end] => destruct x eqn:?
         | context [if ?x then _ else _] => destruct x eqn:?
         end.

(** Eight rounds always suffice for the group loop: once [i + 2 * fuel]
    reaches 16, more fuel changes nothing. *)
Lemma parseIPv6_loop_fuel (fuel k : nat) (in_ s : string) (i : nat)
      (ellipsis : option nat) (bs : list Z) :
  (16 <= i + 2 * fuel)%nat ->
  parseIPv6_loop (fuel + k) in_ s i ellipsis bs
  = parseIPv6_loop fuel in_ s i ellipsis bs.
Proof.
  revert s i ellipsis bs. induction fuel as [|fuel IH];
    intros s i ellipsis bs Hi.
  - destruct (Nat.leb_spec 16 i) as [Hle|Hlt]; [|lia].
    apply Nat.leb_le in Hle. change (0 + k)%nat with k.
    destruct k; cbn -[Nat.leb Nat.ltb Nat.eqb Nat.add]; rewrite Hle;
      reflexivity.
  - change (S fuel + k)%nat with (S (fuel + k)).
    cbn -[Nat.leb Nat.ltb Nat.eqb Nat.add].
    destruct (16 <=? i)%nat; [reflexivity|].
    destruct (hexGroup in_ s s 0 0) as [[[off acc] rest]|e]; [|reflexivity].
    destruct (off =? 0)%nat; [reflexivity|].
    destruct (starts_with "." rest); [reflexivity|].
    destruct rest as [|c rest1]; [reflexivity|].
    destruct (negb (Ascii.eqb c ":")); [reflexivity|].
    destruct rest1 as [|c2 rest2]; [reflexivity|].
    destruct (Ascii.eqb c2 ":").
    + destruct ellipsis; [reflexivity|].
      destruct rest2; [reflexivity|]. apply IH. lia.
    + apply IH. lia.
Qed.

Lemma lor_u64 (x y : Z) :
  0 <= x < 2 ^ 64 -> 0 <= y < 2 ^ 64 -> 0 <= Z.lor x y < 2 ^ 64.
Proof.
  intros Hx Hy.
  rewrite <- (Z.mod_small x (2 ^ 64)), <- (Z.mod_small y (2 ^ 64)) by lia.
  rewrite <- !Z.land_ones, <- Z.land_lor_distr_l, Z.land_ones by lia.
  apply Z.mod_pos_bound. lia.
Qed.

Lemma beUint64_fold_range (bs : list Z) (acc : Z) :
  0 <= acc < 2 ^ 64 ->
  0 <= fold_left (fun a b => Z.lor (shl64 a 8) (b mod 256)) bs acc < 2 ^ 64.
Proof.
  revert acc. induction bs as [|b bs IH]; intros acc Hacc; simpl; [exact Hacc|].
  apply IH. apply lor_u64.
  - unfold shl64. apply Z.mod_pos_bound. lia.
  - pose proof (Z.mod_pos_bound b 256 ltac:(lia)). lia.
Qed.

Lemma beUint64_ok (bs : list Z) : u64_ok (beUint64 bs) = true.
Proof.
  apply u64_ok_range. unfold beUint64. apply beUint64_fold_range. lia.
Qed.

Lemma shiftr_32_small (x n : Z) :
  0 <= n <= 24 -> Z.shiftr (Z.shiftl (x mod 256) n) 32 = 0.
Proof.
  intros Hn. rewrite Z.shiftr_shiftl_r by lia.
  rewrite Z.shiftr_div_pow2 by lia.
  pose proof (Z.mod_pos_bound x 256 ltac:(lia)).
  apply Z.div_small. split; [lia|].
  apply Z.lt_le_trans with (2 ^ 8); [simpl; lia|].
  apply Z.pow_le_mono_r; lia.
Qed.

Lemma AddrFrom4_ok (a b c d : Z) : Addr_ok (AddrFrom4 a b c d) = true.
Proof.
  unfold Addr_ok, AddrFrom4. cbn [z addr hi lo].
  rewrite Z.eqb_refl. cbn [andb]. apply Z.eqb_eq.
  rewrite !Z.shiftr_lor.
  rewrite (shiftr_32_small a 24), (shiftr_32_small b 16),
    (shiftr_32_small c 8) by lia.
  replace (d mod 256) with (Z.shiftl (d mod 256) 0) by apply Z.shiftl_0_r.
  rewrite (shiftr_32_small d 0) by lia.
  reflexivity.
Qed.

Lemma AddrFrom16_ok (bs : list Z) : Addr_ok (AddrFrom16 bs) = true.
Proof.
  unfold Addr_ok, AddrFrom16. cbn [z addr hi lo].
  rewrite !beUint64_ok. reflexivity.
Qed.

Lemma WithZone_ok (a : Addr) (zn : string) :
  Addr_ok a = true -> z a = z6noz ->
  Addr_ok (WithZone a zn) = true
  /\ Is6 (WithZone a zn) = true
  /\ (zn = "" -> z (WithZone a zn) = z6noz).
Proof.
  intros Hok Hz. unfold WithZone, Is6, Addr_ok in *. rewrite Hz in *.
  cbn [zone_eqb negb andb].
  destruct (String.eqb zn "") eqn:Hzn; cbn [z addr zone_eqb negb andb].
  - repeat split; auto.
  - rewrite Hok, Hzn. repeat split; auto.
    intros ->. discriminate.
Qed.

Lemma parseIPv4_ok (s : string) (a : Addr) :
  parseIPv4 s = inl a -> Addr_ok a = true /\ z a = z4.
Proof.
  unfold parseIPv4, addrError, fail, ok. intros H. break_match_hyp H;
    try discriminate.
  inversion H; subst. split; [apply AddrFrom4_ok | reflexivity].
Qed.

Lemma parseIPv6_ok (s : string) (a : Addr) :
  parseIPv6 s = inl a ->
  Addr_ok a = true /\ Is6 a = true
  /\ (IndexByteString s "%" = None -> z a = z6noz).
Proof.
  unfold parseIPv6, Cut, addrError, fail, ok. intros H.
  destruct (IndexByteString s "%") as [i|] eqn:Hi.
  - break_match_hyp H; try discriminate; inversion H; subst;
      (split; [|split; [|discriminate]]);
      apply WithZone_ok; try reflexivity; apply AddrFrom16_ok.
  - break_match_hyp H; try discriminate; inversion H; subst;
      (split; [|split; [|intros _]]);
      apply WithZone_ok; try reflexivity; apply AddrFrom16_ok.
Qed.

Lemma ParseAddr_scan_ok (s rest : string) (a : Addr) :
  ParseAddr_scan s rest = inl a ->
  Addr_ok a = true /\ isZero a = false
  /\ (IndexByteString s "%" = None -> hasZone a = false).
Proof.
  induction rest as [|c rest IH]; simpl; [discriminate|].
  destruct (Ascii.eqb c ".").
  { intros H. apply parseIPv4_ok in H. destruct H as [Hok Hz].
    unfold isZero, hasZone. rewrite Hz. auto. }
  destruct (Ascii.eqb c ":").
  { intros H. apply parseIPv6_ok in H. destruct H as (Hok & H6 & Hz).
    split; [exact Hok|]. split.
    - unfold Is6 in H6. unfold isZero.
      destruct (zone_eqb (z a) z0); [discriminate|reflexivity].
    - intros Hn. unfold hasZone. rewrite (Hz Hn). reflexivity. }
  destruct (Ascii.eqb c "%"); [discriminate|]. exact IH.
Qed.

Lemma ParseAddr_ok (s : string) (a : Addr) :
  ParseAddr s = inl a ->
  Addr_ok a = true /\ isZero a = false
  /\ (IndexByteString s "%" = None -> hasZone a = false).
Proof. apply ParseAddr_scan_ok. Qed.

Lemma IndexByteString_take (s : string) (c : ascii) (i : nat) :
  IndexByteString s c = Some i -> IndexByteString (take i s) c = None.
Proof.
  revert i. induction s as [|a s IH]; intros i; simpl; [discriminate|].
  destruct (Ascii.eqb a c) eqn:Hac.
  - intros H. inversion H; subst. reflexivity.
  - destruct (IndexByteString s c) as [j|]; [|discriminate].
    intros H. inversion H; subst. simpl. rewrite Hac, (IH j eq_refl).
    reflexivity.
Qed.

Lemma Cut_before_has_no_sep (s : string) (c : ascii) :
  IndexByteString (fst (fst (Cut s c))) c = None.
Proof.
  unfold Cut. destruct (IndexByteString s c) as [i|] eqn:Hi; simpl.
  - apply IndexByteString_take. exact Hi.
  - exact Hi.
Qed.

(** Every address [Match] hands to [Contains] is well formed and carries
    no zone. *)
Lemma parseIPZoneFromString_ok (address : string) (a : Addr) :
  parseIPZoneFromString address = inl a ->
  Addr_ok a = true /\ hasZone a = false.
Proof.
  unfold parseIPZoneFromString.
  set (ipStr := match Net.SplitHostPort address with
                | inl (host, _) => host
                | inr _ => address
                end).
  pose proof (Cut_before_has_no_sep ipStr "%") as Hn.
  destruct (Cut ipStr "%") as [[x zn] b]. simpl in Hn.
  intros H. apply ParseAddr_ok in H. destruct H as (Hok & _ & Hz). auto.
Qed.

Lemma PrefixFrom_ok (a : Addr) (bits : Z) :
  Addr_ok a = true -> isZero a = false -> hasZone a = false ->
  0 <= bits <= BitLen a ->
  Prefix_ok (PrefixFrom a bits) = true.
Proof.
  intros Hok Hz Hzone Hb.
  assert (Hw : withoutZone a = a).
  { unfold withoutZone, Is6, hasZone, isZero in *.
    destruct a as [u za]. cbn [z addr] in *.
    destruct za; cbn [zone_eqb negb andb] in *; try reflexivity.
    discriminate. }
  assert (H128 : BitLen a <= 128)
    by (unfold BitLen; destruct (z a); lia).
  unfold Prefix_ok, PrefixFrom, IsValid, Bits. cbn [ip bitsPlusOne].
  rewrite Hw, Hz, Hok, Hzone. cbn [negb andb].
  destruct (Z.leb_spec 0 bits); [|lia].
  destruct (Z.leb_spec bits (BitLen a)); [|lia].
  cbn [andb]. rewrite Z.mod_small by lia.
  rewrite !andb_true_r, andb_true_iff, Z.ltb_lt, Z.leb_le. lia.
Qed.

Lemma ParsePrefix_ok (s : string) (p : Prefix) :
  ParsePrefix s = inl p -> Prefix_ok p = true.
Proof.
  unfold ParsePrefix, prefixError, fail, ok. intros H.
  destruct (LastIndexByteString s "/") as [i|]; [|discriminate].
  destruct (ParseAddr (take i s)) as [a|e] eqn:Ha;
    [|destruct e; discriminate].
  apply ParseAddr_ok in Ha. destruct Ha as (Hok & Hz & _).
  destruct (Is6 a && negb (zone_eqb (z a) z6noz)) eqn:Hzone; [discriminate|].
  match type of H with
  | (if ?c then _ else _) = _ => destruct c; [discriminate|]
  end.
  destruct (Atoi (drop (S i) s)) as [bits|]; [|discriminate].
  destruct ((bits <? 0) || ((if Is6 a then 128 else 32) <? bits)) eqn:Hr;
    [discriminate|].
  inversion H; subst. apply orb_false_elim in Hr. destruct Hr as [Hr0 Hr1].
  apply Z.ltb_ge in Hr0, Hr1.
  apply PrefixFrom_ok; [exact Hok | exact Hz | exact Hzone |].
  unfold BitLen, Is6, isZero in *. destruct a as [u za]. cbn [z] in *.
  destruct za; cbn [zone_eqb negb andb] in *; try discriminate; lia.
Qed.

Lemma fetch_loop_ok (lines : list string) (acc ps : list Prefix) :
  Forall (fun p => Prefix_ok p = true) acc ->
  fetch_loop lines acc = inl ps ->
  Forall (fun p => Prefix_ok p = true) ps.
Proof.
  revert acc. induction lines as [|l rest IH]; intros acc Hacc; simpl.
  - intros H. inversion H; subst. exact Hacc.
  - destruct (String.eqb l ""); [apply IH; exact Hacc|].
    destruct (ParsePrefix l) as [p|e] eqn:Hp; [|discriminate].
    apply IH. apply Forall_app. split; [exact Hacc|].
    constructor; [|constructor]. apply (ParsePrefix_ok l). exact Hp.
Qed.

(** Every prefix of a snapshot the source installs is a valid prefix. *)
Lemma getPrefixes_ok (s : CloudflareIPRange) (net : HTTP) (ps : list Prefix) :
  getPrefixes s net = inl ps -> Forall (fun p => Prefix_ok p = true) ps.
Proof.
  assert (Hf : forall api v, fetch s net api = inl v ->
                             Forall (fun p => Prefix_ok p = true) v).
  { intros api v. unfold fetch. destruct (net api (fetchTimeout s)) as [e|d re];
      [discriminate|].
    destruct (Bufio.Scan d re) as [ls e]. apply fetch_loop_ok. constructor. }
  rewrite getPrefixes_unfold.
  destruct (fetch s net ipv4) as [v4|e4] eqn:H4; [|discriminate].
  destruct (fetch s net ipv6) as [v6|e6] eqn:H6; [|discriminate].
  intros H. inversion H; subst. apply Forall_app. split; eauto.
Qed.

(** ** Bodies the scanner reads to the end *)

Lemma scanLines_short (rcur : list ascii) (n : Z) (data : string)
      (readErr : option error) :
  n = Z.of_nat (List.length rcur) ->
  short_lines n data = true ->
  Bufio.scanLines rcur n data readErr = (body_lines rcur data, readErr).
Proof.
  revert rcur n. induction data as [|c rest IH]; intros rcur n Hn; simpl.
  - intros _. destruct rcur as [|a t]; simpl in Hn.
    + subst n. reflexivity.
    + destruct (Z.eqb_spec n 0); [lia|reflexivity].
  - intros Hs. apply andb_prop in Hs. destruct Hs as [Hlt Hs].
    apply Z.ltb_lt in Hlt.
    destruct (Z.leb_spec Bufio.MaxScanTokenSize n); [lia|].
    destruct (Ascii.eqb c Bufio.LF).
    + rewrite (IH [] 0 eq_refl Hs). reflexivity.
    + apply IH; [|exact Hs]. simpl List.length. lia.
Qed.

Lemma fetch_loop_parse_lines (ls : list string) (acc : list Prefix) :
  fetch_loop ls acc =
  match parse_lines ls with
  | inl ps => inl (acc ++ ps)
  | inr e => inr e
  end.
Proof.
  revert acc. induction ls as [|l rest IH]; intros acc; simpl.
  - rewrite app_nil_r. reflexivity.
  - destruct (String.eqb l ""); [apply IH|].
    destruct (ParsePrefix l) as [p|e]; [|reflexivity].
    rewrite IH. destruct (parse_lines rest) as [ps|e]; [|reflexivity].
    simpl. rewrite <- app_assoc. reflexivity.
Qed.

(** On a body that arrives whole and has no line of 64 KiB or more,
    [fetch] is [parse_prefix_list]. *)
Lemma fetch_whole_body (s : CloudflareIPRange) (net : HTTP) (api data : string) :
  net api (fetchTimeout s) = Body data None ->
  short_lines 0 data = true ->
  fetch s net api = parse_prefix_list data.
Proof.
  intros Hn Hs. unfold fetch, parse_prefix_list, Bufio.Scan. rewrite Hn.
  rewrite (scanLines_short [] 0 data None eq_refl Hs).
  rewrite fetch_loop_parse_lines.
  destruct (parse_lines (body_lines [] data)); reflexivity.
Qed.

(** When every line is blank or parses, the prefixes come in line order. *)
Lemma parse_lines_all_valid (ls : list string) :
  Forall (fun l => l = "" \/ exists p, ParsePrefix l = inl p) ls ->
  exists ps,
    parse_lines ls = inl ps
    /\ Forall2 (fun l p => ParsePrefix l = inl p)
               (filter (fun l => negb (String.eqb l "")) ls) ps.
Proof.
  induction 1 as [|l rest Hl _ IH]; simpl.
  - exists []. split; [reflexivity|constructor].
  - destruct IH as (ps & Hps & Hall).
    destruct (String.eqb_spec l "") as [He|Hne]; simpl.
    + exists ps. split; assumption.
    + destruct Hl as [He|[p Hp]]; [contradiction|].
      rewrite Hp, Hps. exists (p :: ps). split; [reflexivity|].
      constructor; assumption.
Qed.

(** The first line that is neither blank nor a CIDR literal decides: its
    error is returned and no prefix. *)
Lemma parse_lines_first_bad (before after : list string) (l : string)
      (e : error) :
  Forall (fun l => l = "" \/ exists p, ParsePrefix l = inl p) before ->
  l <> "" -> ParsePrefix l = inr e ->
  parse_lines (before ++ l :: after) = inr e.
Proof.
  intros Hb Hne He. induction Hb as [|x rest Hx _ IH]; simpl.
  - destruct (String.eqb_spec l ""); [contradiction|]. rewrite He.
    reflexivity.
  - destruct (String.eqb_spec x ""); [exact IH|].
    destruct Hx as [Hx|[p Hp]]; [contradiction|].
    rewrite Hp, IH. reflexivity.
Qed.

(** ** The errors name their input *)

Lemma parseIPv4Fields_loop_err (in_ s : string) (first prevDot : bool)
      (val pos digLen : Z) (fields : list Z) (e : error) :
  parseIPv4Fields_loop in_ s first prevDot val pos digLen fields = inr e ->
  exists msg at_, e = ParseAddrErr (mkParseAddrError in_ msg at_).
Proof.
  revert first prevDot val pos digLen fields.
  induction s as [|c rest IH]; intros first prevDot val pos digLen fields;
    simpl; unfold addrError, fail, ok; intros H; break_match_hyp H;
    try discriminate;
    try (inversion H; subst; eauto; fail);
    eapply IH; eassumption.
Qed.

Lemma hexGroup_err (in_ grp s : string) (off : nat) (acc : Z) (e : error) :
  hexGroup in_ grp s off acc = inr e ->
  exists msg at_, e = ParseAddrErr (mkParseAddrError in_ msg at_).
Proof.
  revert off acc. induction s as [|c rest IH]; intros off acc; simpl;
    unfold addrError, fail, ok; intros H; break_match_hyp H;
    try discriminate;
    try (inversion H; subst; eauto; fail);
    eapply IH; eassumption.
Qed.

Lemma parseIPv6_loop_err (fuel : nat) (in_ s : string) (i : nat)
      (ellipsis : option nat) (bs : list Z) (e : error) :
  parseIPv6_loop fuel in_ s i ellipsis bs = inr e ->
  exists msg at_, e = ParseAddrErr (mkParseAddrError in_ msg at_).
Proof.
  revert s i ellipsis bs. induction fuel as [|fuel IH];
    intros s i ellipsis bs; cbn -[Nat.leb Nat.ltb Nat.eqb Nat.add];
    unfold addrError, fail, ok; intros H.
  - break_match_hyp H; discriminate.
  - destruct (16 <=? i)%nat; [discriminate|].
    destruct (hexGroup in_ s s 0 0) as [[[off acc] rest]|e'] eqn:Hg.
    2:{ inversion H; subst. eapply hexGroup_err; eassumption. }
    destruct (off =? 0)%nat; [inversion H; subst; eauto|].
    destruct (starts_with "." rest).
    { destruct (match ellipsis with
                | Some _ => false
                | None => negb (i =? 12)%nat
                end); [inversion H; subst; eauto|].
      destruct (16 <? i + 4)%nat; [inversion H; subst; eauto|].
      destruct (parseIPv4Fields in_ s) as [f4|e'] eqn:H4; [discriminate|].
      inversion H; subst. eapply parseIPv4Fields_loop_err; eassumption. }
    destruct rest as [|c rest1]; [discriminate|].
    destruct (negb (Ascii.eqb c ":")); [inversion H; subst; eauto|].
    destruct rest1 as [|c2 rest2]; [inversion H; subst; eauto|].
    destruct (Ascii.eqb c2 ":").
    + destruct ellipsis; [inversion H; subst; eauto|].
      destruct rest2; [discriminate|]. eapply IH; eassumption.
    + eapply IH; eassumption.
Qed.

Lemma ParseAddr_err (s : string) (e : error) :
  ParseAddr s = inr e ->
  exists msg at_, e = ParseAddrErr (mkParseAddrError s msg at_).
Proof.
  unfold ParseAddr. generalize s at 2. intros rest.
  induction rest as [|c rest IH]; simpl; unfold addrError, fail, ok.
  - intros H. inversion H; subst. eauto.
  - destruct (Ascii.eqb c ".").
    { unfold parseIPv4, addrError, fail, ok.
      destruct (parseIPv4Fields s s) as [f|e'] eqn:Hf.
      - intros H. break_match_hyp H; try discriminate;
          inversion H; subst; eauto.
      - intros H. inversion H; subst.
        eapply parseIPv4Fields_loop_err; eassumption. }
    destruct (Ascii.eqb c ":").
    { unfold parseIPv6, addrError, fail, ok.
      destruct (Cut s "%") as [[s1 zn] hasPct].
      destruct (hasPct && String.eqb zn ""); [intros H; inversion H; eauto|].
      match goal with
      | |- (if ?c then _ else _) = _ -> _ => destruct c; [discriminate|]
      end.
      match goal with
      | |- match ?x with _ => _ end = _ -> _ => destruct x eqn:Hl
      end.
      - intros H. break_match_hyp H; try discriminate;
          inversion H; subst; eauto.
      - intros H. inversion H; subst.
        eapply parseIPv6_loop_err; eassumption. }
    destruct (Ascii.eqb c "%"); [intros H; inversion H; eauto|]. exact IH.
Qed.

(** The error of [ParsePrefix] carries the line it was given. *)
Lemma ParsePrefix_err_names_line (l : string) (e : error) :
  ParsePrefix l = inr e -> exists cause, e = ParsePrefixErr l cause.
Proof.
  unfold ParsePrefix, prefixError, fail, ok. intros H.
  destruct (LastIndexByteString l "/") as [i|];
    [|inversion H; eauto].
  destruct (ParseAddr (take i l)) as [a|e'] eqn:Ha.
  - break_match_hyp H; try discriminate; inversion H; eauto.
  - apply ParseAddr_err in Ha. destruct Ha as (msg & at_ & ->).
    inversion H; eauto.
Qed.

(** * Further properties *)

(** ** The verdict as a function of the snapshot *)

Lemma existsb_incl {A} (f : A -> bool) (xs ys : list A) :
  incl xs ys -> existsb f xs = true -> existsb f ys = true.
Proof.
  intros Hi Hx. apply existsb_exists in Hx. destruct Hx as (x & Hin & Hf).
  apply existsb_exists. exists x. split; [apply Hi; exact Hin | exact Hf].
Qed.

Lemma existsb_Permutation {A} (f : A -> bool) (xs ys : list A) :
  Permutation xs ys -> existsb f xs = existsb f ys.
Proof.
  intros Hp.
  destruct (existsb f xs) eqn:Hx, (existsb f ys) eqn:Hy; try reflexivity.
  - rewrite <- Hy. symmetry.
    apply (existsb_incl f xs ys); [|exact Hx].
    intros x Hin. apply (Permutation_in x Hp Hin).
  - rewrite <- Hx.
    apply (existsb_incl f ys xs); [|exact Hy].
    intros x Hin. apply (Permutation_in x (Permutation_sym Hp) Hin).
Qed.

(** X1. The order of the prefixes in the snapshot does not matter: two
    sources whose snapshots for the request are permutations of one another
    give the same verdict and the same log. *)
Theorem Match_snapshot_order_irrelevant
        (m m' : MatchDynamicRemoteIP) (src src' : provider) (r : Request) :
  Providers m = Some src -> Providers m' = Some src' ->
  Permutation (providerRanges src r) (providerRanges src' r) ->
  Match m r = Match m' r.
Proof.
  intros Hs Hs' Hp. unfold Match. rewrite Hs, Hs'.
  destruct (parseIPZoneFromString (RemoteAddr r)) as [a|e]; [|reflexivity].
  rewrite !Match_loop_existsb, (existsb_Permutation _ _ _ Hp). reflexivity.
Qed.

Lemma Match_snapshot_order_irrelevant_witness :
  Match (mkMatcher (Some (asProvider
           (mkSource 0 0 [prefix_2001_db8_32; prefix_198_51_100_0_24]))))
        (mkRequest "198.51.100.42:51234")
  = Match (mkMatcher (Some (asProvider
             (mkSource 0 0 [prefix_198_51_100_0_24; prefix_2001_db8_32]))))
          (mkRequest "198.51.100.42:51234").
Proof.
  apply (Match_snapshot_order_irrelevant
           _ _
           (asProvider (mkSource 0 0 [prefix_2001_db8_32;
                                      prefix_198_51_100_0_24]))
           (asProvider (mkSource 0 0 [prefix_198_51_100_0_24;
                                      prefix_2001_db8_32]))).
  - reflexivity.
  - reflexivity.
  - apply perm_swap.
Defined.

(** X2. The verdict grows with the snapshot: a request matched under one
    snapshot is matched under every snapshot that holds at least the same
    prefixes, and over two snapshots put together the loop is the
    disjunction of the two loops. *)
Theorem Match_snapshot_monotone
        (m m' : MatchDynamicRemoteIP) (src src' : provider) (r : Request) :
  Providers m = Some src -> Providers m' = Some src' ->
  incl (providerRanges src r) (providerRanges src' r) ->
  (fst (Match m r) = true -> fst (Match m' r) = true)
  /\ (forall xs ys a,
         Match_loop (xs ++ ys) a = Match_loop xs a || Match_loop ys a).
Proof.
  intros Hs Hs' Hi. split.
  - unfold Match. rewrite Hs, Hs'.
    destruct (parseIPZoneFromString (RemoteAddr r)) as [a|e];
      [|discriminate].
    simpl. rewrite !Match_loop_existsb. apply existsb_incl. exact Hi.
  - intros xs ys a. rewrite !Match_loop_existsb. apply existsb_app.
Qed.

Lemma Match_snapshot_monotone_witness :
  fst (Match (mkMatcher (Some (asProvider
                (mkSource 0 0 [prefix_2001_db8_32; prefix_198_51_100_0_24]))))
             (mkRequest "198.51.100.42:51234")) = true.
Proof.
  apply (fun Hi =>
           proj1 (Match_snapshot_monotone
                    matcher_198_51_100
                    (mkMatcher (Some (asProvider
                       (mkSource 0 0 [prefix_2001_db8_32;
                                      prefix_198_51_100_0_24]))))
                    (asProvider (mkSource 0 0 [prefix_198_51_100_0_24]))
                    (asProvider (mkSource 0 0 [prefix_2001_db8_32;
                                               prefix_198_51_100_0_24]))
                    (mkRequest "198.51.100.42:51234")
                    eq_refl eq_refl Hi)).
  - intros p Hp. right. exact Hp.
  - vm_compute. reflexivity.
Defined.

(** X3. [Match] writes to the log exactly when the peer address does not
    parse, and then one entry; a request that is matched leaves no log
    entry. *)
Theorem Match_logs_only_parse_failures
        (m : MatchDynamicRemoteIP) (r : Request) :
  (snd (Match m r) = [] <->
   is_ok (parseIPZoneFromString (RemoteAddr r)) = true)
  /\ (List.length (snd (Match m r)) <= 1)%nat
  /\ (fst (Match m r) = true -> snd (Match m r) = []).
Proof.
  unfold Match.
  destruct (parseIPZoneFromString (RemoteAddr r)) as [a|e]; simpl.
  - destruct (Providers m); simpl; repeat split; auto.
  - repeat split; try discriminate. lia.
Qed.

Lemma Match_logs_only_parse_failures_witness :
  snd (Match matcher_198_51_100 (mkRequest "198.51.100.42:51234")) = [].
Proof.
  apply (proj2 (proj2 (Match_logs_only_parse_failures
                         matcher_198_51_100
                         (mkRequest "198.51.100.42:51234")))).
  vm_compute. reflexivity.
Defined.

(** ** What reaches [Contains] *)

(** X4. Whatever [parseIPZoneFromString] returns is a well-formed address
    without zone and whatever [ParsePrefix] returns is a valid prefix, so
    for every pair the matcher can compare, [Contains] is exactly: same
    family, and the same number once all but the leading bits of the
    prefix length are cleared. *)
Theorem parsed_values_meet_Contains
        (address line : string) (a : Addr) (p : Prefix) :
  parseIPZoneFromString address = inl a ->
  ParsePrefix line = inl p ->
  Addr_ok a = true /\ hasZone a = false /\ isZero a = false
  /\ Prefix_ok p = true
  /\ (Contains p a = true <-> in_prefix p a).
Proof.
  intros Ha Hp.
  pose proof (parseIPZoneFromString_ok address a Ha) as [Hok Hz].
  pose proof (ParsePrefix_ok line p Hp) as Hpok.
  split; [exact Hok|]. split; [exact Hz|]. split.
  - unfold parseIPZoneFromString in Ha.
    destruct (Cut match Net.SplitHostPort address with
                  | inl (host, _) => host
                  | inr _ => address
                  end "%") as [[x zn] b].
    apply ParseAddr_ok in Ha. tauto.
  - split; [exact Hpok|]. apply Contains_iff_in_prefix; assumption.
Qed.

Lemma parsed_values_meet_Contains_witness :
  hasZone addr_2001_db8__1 = false
  /\ Contains prefix_2001_db8_32 addr_2001_db8__1 = true
  /\ Contains prefix_2001_db8_32 addr_fe80__1 <> true.
Proof.
  destruct (parsed_values_meet_Contains
              "[2001:db8::1%eth0]:443" "2001:db8::/32"
              addr_2001_db8__1 prefix_2001_db8_32)
    as (_ & Hz & _ & _ & Hc).
  - vm_compute. reflexivity.
  - vm_compute. reflexivity.
  - split; [exact Hz|]. split.
    + apply Hc. split; vm_compute; reflexivity.
    + destruct (parsed_values_meet_Contains
                  "[fe80::1%eth0]:443" "2001:db8::/32"
                  addr_fe80__1 prefix_2001_db8_32)
        as (_ & _ & _ & _ & Hc').
      * vm_compute. reflexivity.
      * vm_compute. reflexivity.
      * intros H. apply Hc' in H. destruct H as [_ H].
        vm_compute in H. discriminate H.
Defined.

(** ** Peer addresses that cannot be addresses *)

Lemma IndexByteString_take_none (s : string) (c : ascii) (i : nat) :
  IndexByteString s c = None -> IndexByteString (take i s) c = None.
Proof.
  revert i. induction s as [|a s IH]; intros i; simpl.
  - intros _. destruct i; reflexivity.
  - destruct (Ascii.eqb a c) eqn:Hac; [discriminate|].
    destruct (IndexByteString s c) eqn:Hs; [discriminate|].
    intros _. destruct i; simpl; [reflexivity|].
    rewrite Hac, (IH i eq_refl). reflexivity.
Qed.

Lemma ParseAddr_scan_no_separator (s rest : string) :
  IndexByteString rest "." = None ->
  IndexByteString rest ":" = None ->
  IndexByteString rest "%" = None ->
  ParseAddr_scan s rest = addrError s "unable to parse IP" "".
Proof.
  induction rest as [|c rest IH]; simpl; [reflexivity|].
  destruct (Ascii.eqb c "."); [discriminate|].
  destruct (Ascii.eqb c ":"); [discriminate|].
  destruct (Ascii.eqb c "%"); [discriminate|].
  destruct (IndexByteString rest "."); [discriminate|].
  destruct (IndexByteString rest ":"); [discriminate|].
  destruct (IndexByteString rest "%"); [discriminate|].
  intros _ _ _. apply IH; reflexivity.
Qed.

(** X5. A peer-address string without any '.' and any ':' (the empty
    string, a bare host name, a socket name) is never an address:
    [parseIPZoneFromString] fails with "unable to parse IP" on the text
    before the first '%', and [Match] is false whatever the source is. *)
Theorem address_without_dot_and_colon_is_rejected
        (m : MatchDynamicRemoteIP) (address : string) :
  IndexByteString address "." = None ->
  IndexByteString address ":" = None ->
  parseIPZoneFromString address
  = inr (ParseAddrErr (mkParseAddrError (fst (fst (Cut address "%")))
                                        "unable to parse IP" ""))
  /\ fst (Match m (mkRequest address)) = false.
Proof.
  intros Hd Hc.
  assert (Hp : parseIPZoneFromString address
               = inr (ParseAddrErr
                        (mkParseAddrError (fst (fst (Cut address "%")))
                                          "unable to parse IP" ""))).
  { unfold parseIPZoneFromString.
    rewrite (SplitHostPort_no_colon address Hc).
    pose proof (Cut_before_has_no_sep address "%") as Hn.
    assert (Hd' : IndexByteString (fst (fst (Cut address "%"))) "." = None).
    { unfold Cut. destruct (IndexByteString address "%"); simpl;
        [apply IndexByteString_take_none|]; exact Hd. }
    assert (Hc' : IndexByteString (fst (fst (Cut address "%"))) ":" = None).
    { unfold Cut. destruct (IndexByteString address "%"); simpl;
        [apply IndexByteString_take_none|]; exact Hc. }
    destruct (Cut address "%") as [[x zn] b]. simpl in *.
    unfold ParseAddr. apply ParseAddr_scan_no_separator; assumption. }
  split; [exact Hp|].
  unfold Match. cbn [RemoteAddr]. rewrite Hp. reflexivity.
Qed.

Lemma address_without_dot_and_colon_is_rejected_witness :
  fst (Match matcher_198_51_100 (mkRequest "")) = false
  /\ fst (Match matcher_198_51_100 (mkRequest "localhost")) = false.
Proof.
  split.
  - apply (address_without_dot_and_colon_is_rejected matcher_198_51_100 "");
      reflexivity.
  - apply (address_without_dot_and_colon_is_rejected
             matcher_198_51_100 "localhost"); reflexivity.
Defined.

(** ** The life of a snapshot *)

Lemma fetch_config (s s' : CloudflareIPRange) (net : HTTP) (api : string) :
  fetchTimeout s = fetchTimeout s' -> fetch s net api = fetch s' net api.
Proof. intros H. unfold fetch. rewrite H. reflexivity. Qed.

Lemma getPrefixes_config (s s' : CloudflareIPRange) (net : HTTP) :
  fetchTimeout s = fetchTimeout s' -> getPrefixes s net = getPrefixes s' net.
Proof.
  intros H. rewrite !getPrefixes_unfold.
  rewrite (fetch_config s s' net ipv4 H), (fetch_config s s' net ipv6 H).
  reflexivity.
Qed.

Lemma refreshTick_config (s : CloudflareIPRange) (net : HTTP) :
  Interval (fst (refreshTick s net)) = Interval s
  /\ Timeout (fst (refreshTick s net)) = Timeout s.
Proof.
  unfold refreshTick. destruct (getPrefixes s net); split; reflexivity.
Qed.

Lemma refreshLoop_run_config (s : CloudflareIPRange) (evs : list event) :
  Interval (fst (refreshLoop_run s evs)) = Interval s
  /\ Timeout (fst (refreshLoop_run s evs)) = Timeout s.
Proof.
  revert s. induction evs as [|ev evs IH]; intros s; simpl; [auto|].
  destruct ev as [net|]; [|auto].
  pose proof (refreshTick_config s net) as [Hi Ht].
  destruct (refreshTick s net) as [s' l1]. simpl in Hi, Ht.
  specialize (IH s'). destruct (refreshLoop_run s' evs) as [s'' l2].
  simpl in *. destruct IH as [IHi IHt]. split; congruence.
Qed.

Lemma fetchTimeout_of_Timeout (s s' : CloudflareIPRange) :
  Timeout s = Timeout s' -> fetchTimeout s = fetchTimeout s'.
Proof. intros H. unfold fetchTimeout. rewrite H. reflexivity. Qed.

Lemma tick_fails_config (s s' : CloudflareIPRange) (evs : list event) :
  Timeout s = Timeout s' ->
  Forall (tick_fails s) evs -> Forall (tick_fails s') evs.
Proof.
  intros Ht. induction 1 as [|ev evs Hev _ IH]; constructor; [|exact IH].
  destruct ev as [net|]; [|exact I]. simpl in *.
  rewrite <- (getPrefixes_config s s' net (fetchTimeout_of_Timeout _ _ Ht)).
  exact Hev.
Qed.

Lemma refreshLoop_run_ticks_app (s : CloudflareIPRange)
      (evs1 evs : list event) :
  Forall is_tick evs1 ->
  fst (refreshLoop_run s (evs1 ++ evs))
  = fst (refreshLoop_run (fst (refreshLoop_run s evs1)) evs).
Proof.
  intros H. revert s. induction H as [|ev evs1 Hev _ IH]; intros s; simpl;
    [reflexivity|].
  destruct ev as [net|]; [|contradiction].
  destruct (refreshTick s net) as [s' l1].
  specialize (IH s').
  destruct (refreshLoop_run s' (evs1 ++ evs)) as [sa la].
  destruct (refreshLoop_run s' evs1) as [sb lb]. simpl in *. exact IH.
Qed.

(** X6. The snapshot is the one of the last cycle that succeeded: after
    any ticks, a tick whose cycle returns [ps], and then any number of
    ticks whose cycles fail, [GetIPRanges] returns [ps]. *)
Theorem refresh_keeps_last_good_snapshot
        (s : CloudflareIPRange) (evs1 evs2 : list event) (net : HTTP)
        (ps : list Prefix) (r : Request) :
  Forall is_tick evs1 ->
  getPrefixes s net = inl ps ->
  Forall (tick_fails s) evs2 ->
  GetIPRanges (fst (refreshLoop_run s (evs1 ++ Tick net :: evs2))) r = ps.
Proof.
  intros H1 Hps H2.
  rewrite (refreshLoop_run_ticks_app s evs1 (Tick net :: evs2) H1).
  pose proof (refreshLoop_run_config s evs1) as [_ Ht].
  set (s1 := fst (refreshLoop_run s evs1)) in *.
  simpl. unfold refreshTick.
  rewrite (getPrefixes_config s1 s net (fetchTimeout_of_Timeout _ _ Ht)), Hps.
  assert (Hf : Forall (tick_fails (setRanges s1 ps)) evs2).
  { apply (tick_fails_config s); [|exact H2]. simpl. symmetry. exact Ht. }
  pose proof (refreshLoop_run_all_fail _ _ Hf) as Hrun.
  destruct (refreshLoop_run (setRanges s1 ps) evs2) as [s2 l2].
  simpl in *. subst s2. reflexivity.
Qed.

(** A network that serves the two lists whole. *)
Lemma refresh_keeps_last_good_snapshot_witness :
  GetIPRanges
    (fst (refreshLoop_run
            (newSource 0 0)
            ([Tick net_unreachable]
               ++ Tick net_lists_served
               :: [Tick net_unreachable; Tick net_unreachable])))
    (mkRequest "198.51.100.42:51234")
  = [prefix_198_51_100_0_24; prefix_2001_db8_32].
Proof.
  apply (refresh_keeps_last_good_snapshot
           (newSource 0 0) [Tick net_unreachable]
           [Tick net_unreachable; Tick net_unreachable] net_lists_served).
  - repeat constructor.
  - vm_compute. reflexivity.
  - repeat constructor; simpl; eexists; vm_compute; reflexivity.
Defined.

(** X7. Nothing that arrives after the cancellation signal is acted on:
    the loop ends at the first [Done], whatever follows it. *)
Theorem refreshLoop_stops_at_Done
        (s : CloudflareIPRange) (evs1 evs2 : list event) :
  refreshLoop_run s (evs1 ++ Done :: evs2) = refreshLoop_run s evs1.
Proof.
  revert s. induction evs1 as [|ev evs1 IH]; intros s; simpl; [reflexivity|].
  destruct ev as [net|]; [|reflexivity].
  destruct (refreshTick s net) as [s' l1]. rewrite IH. reflexivity.
Qed.

(** X8. Provisioning and refreshing write nothing but the snapshot: the
    timeout is never changed, and the interval only by [refreshLoop]
    itself, which replaces a zero by one hour before it starts; when the
    loop does not panic its final state carries that interval. *)
Theorem source_configuration_is_kept
        (s : CloudflareIPRange) (net : HTTP) (evs : list event) :
  Interval (fst (fst (Provision s net))) = Interval s
  /\ Timeout (fst (fst (Provision s net))) = Timeout s
  /\ Interval (fst (refreshLoop_run s evs)) = Interval s
  /\ Timeout (fst (refreshLoop_run s evs)) = Timeout s
  /\ (forall s' l, refreshLoop s evs = Some (s', l) ->
                   Interval s' = refreshInterval s
                   /\ Timeout s' = Timeout s
                   /\ 0 < Interval s').
Proof.
  split; [|split].
  - unfold Provision. destruct (getPrefixes s net); reflexivity.
  - unfold Provision. destruct (getPrefixes s net); reflexivity.
  - pose proof (refreshLoop_run_config s evs) as [Hi Ht].
    split; [exact Hi|]. split; [exact Ht|].
    intros s' l. unfold refreshLoop, refreshInterval, NewTicker.
    set (s0 := if Interval s =? 0 then setInterval s Hour else s).
    destruct (Z.leb_spec (Interval s0) 0) as [Hle|Hgt]; [discriminate|].
    intros H. inversion H as [Hrun].
    pose proof (refreshLoop_run_config s0 evs) as [Hi0 Ht0].
    rewrite Hrun in Hi0, Ht0. simpl in Hi0, Ht0.
    split; [exact Hi0|]. split.
    + rewrite Ht0. unfold s0. destruct (Interval s =? 0); reflexivity.
    + rewrite Hi0. exact Hgt.
Qed.

Lemma source_configuration_is_kept_witness :
  Interval (fst (refreshLoop_run (setInterval (newSource 0 0) Hour)
                                 [Tick net_lists_served])) = Hour.
Proof.
  destruct (source_configuration_is_kept
              (newSource 0 0) net_unreachable [Tick net_lists_served])
    as (_ & _ & _ & _ & Hl).
  apply (Hl (fst (refreshLoop_run (setInterval (newSource 0 0) Hour)
                                  [Tick net_lists_served]))
            (snd (refreshLoop_run (setInterval (newSource 0 0) Hour)
                                  [Tick net_lists_served]))).
  vm_compute. reflexivity.
Defined.

(** X9. Every snapshot a freshly built source ever serves, after
    [Provision] and after any events, holds valid prefixes only. *)
Theorem every_snapshot_holds_valid_prefixes
        (interval timeout : Z) (net : HTTP) (evs : list event) (r : Request) :
  Forall (fun p => Prefix_ok p = true)
         (GetIPRanges (fst (fst (Provision (newSource interval timeout) net)))
                      r)
  /\ Forall (fun p => Prefix_ok p = true)
            (GetIPRanges
               (fst (refreshLoop_run
                       (fst (fst (Provision (newSource interval timeout)
                                            net))) evs)) r).
Proof.
  assert (Hrun : forall evs s,
             Forall (fun p => Prefix_ok p = true) (ranges s) ->
             Forall (fun p => Prefix_ok p = true)
                    (ranges (fst (refreshLoop_run s evs)))).
  { clear evs. induction evs as [|ev evs IH]; intros s Hs; simpl; [exact Hs|].
    destruct ev as [n|]; [|exact Hs].
    assert (Ht : Forall (fun p => Prefix_ok p = true)
                        (ranges (fst (refreshTick s n)))).
    { unfold refreshTick. destruct (getPrefixes s n) as [ps|e] eqn:Hg;
        [|exact Hs]. simpl. apply (getPrefixes_ok s n ps Hg). }
    destruct (refreshTick s n) as [s' l1]. specialize (IH s' Ht).
    destruct (refreshLoop_run s' evs) as [s'' l2]. exact IH. }
  assert (Hp : Forall (fun p => Prefix_ok p = true)
                      (ranges (fst (fst (Provision
                                           (newSource interval timeout)
                                           net))))).
  { unfold Provision.
    destruct (getPrefixes (newSource interval timeout) net) as [ps|e] eqn:Hg;
      simpl; [apply (getPrefixes_ok _ _ ps Hg) | constructor]. }
  split; [exact Hp | apply Hrun; exact Hp].
Qed.

(** ** What a cycle reads and what it reports *)

(** X10. A cycle looks at nothing but the answers of the two endpoints
    under the effective timeout, the v4 list first: two networks that agree
    there give the same cycle, and once the v4 fetch has failed the answer
    of the v6 endpoint does not matter. *)
Theorem getPrefixes_reads_two_endpoints
        (s s' : CloudflareIPRange) (net net' : HTTP) :
  fetchTimeout s = fetchTimeout s' ->
  net ipv4 (fetchTimeout s) = net' ipv4 (fetchTimeout s) ->
  (net ipv6 (fetchTimeout s) = net' ipv6 (fetchTimeout s)
   \/ exists e, fetch s net ipv4 = inr e) ->
  getPrefixes s net = getPrefixes s' net'.
Proof.
  intros Ht H4 H6.
  assert (F4 : fetch s net ipv4 = fetch s' net' ipv4).
  { unfold fetch. rewrite <- Ht, H4. reflexivity. }
  rewrite !getPrefixes_unfold, <- F4.
  destruct H6 as [H6|[e He]].
  - assert (F6 : fetch s net ipv6 = fetch s' net' ipv6).
    { unfold fetch. rewrite <- Ht, H6. reflexivity. }
    rewrite F6. reflexivity.
  - rewrite He. reflexivity.
Qed.

Lemma getPrefixes_reads_two_endpoints_witness :
  getPrefixes (newSource 0 0) net_unreachable
  = getPrefixes (newSource Hour (15 * Second))
                (fun url _ =>
                   if String.eqb url ipv4 then net_unreachable url 0
                   else net_lists_served url 0).
Proof.
  apply getPrefixes_reads_two_endpoints.
  - reflexivity.
  - reflexivity.
  - right. eexists. vm_compute. reflexivity.
Defined.

Lemma fetch_loop_error (ls : list string) (acc : list Prefix) (e : error) :
  fetch_loop ls acc = inr e ->
  exists line cause,
    In line ls /\ line <> "" /\ ParsePrefix line = inr e
    /\ e = ParsePrefixErr line cause.
Proof.
  revert acc. induction ls as [|l rest IH]; intros acc; simpl; [discriminate|].
  destruct (String.eqb_spec l "") as [He|Hne].
  - intros H. destruct (IH acc H) as (line & cause & Hin & Hr).
    exists line, cause. split; [right; exact Hin | exact Hr].
  - destruct (ParsePrefix l) as [p|e'] eqn:Hp.
    + intros H. destruct (IH _ H) as (line & cause & Hin & Hr).
      exists line, cause. split; [right; exact Hin | exact Hr].
    + intros H. inversion H; subst e'.
      destruct (ParsePrefix_err_names_line l e Hp) as [cause Hc].
      exists l, cause. split; [left; reflexivity|]. auto.
Qed.

(** X11. An error from [fetch] is either the error [Do] returned, or the
    error of [ParsePrefix] on a non-empty line the scanner handed out, and
    then it carries that line.  In particular [fetch] never returns an
    error of reading the body or of the scanner. *)
Theorem fetch_error_is_transport_or_names_line
        (s : CloudflareIPRange) (net : HTTP) (api : string) (e : error) :
  fetch s net api = inr e ->
  net api (fetchTimeout s) = DoError e
  \/ exists data readErr line cause,
      net api (fetchTimeout s) = Body data readErr
      /\ In line (fst (Bufio.Scan data readErr))
      /\ line <> ""
      /\ ParsePrefix line = inr e
      /\ e = ParsePrefixErr line cause.
Proof.
  unfold fetch. destruct (net api (fetchTimeout s)) as [e'|data readErr].
  - intros H. inversion H. left. reflexivity.
  - destruct (Bufio.Scan data readErr) as [ls se] eqn:Hs. intros H.
    destruct (fetch_loop_error ls [] e H) as (line & cause & Hin & Hr).
    right. exists data, readErr, line, cause. rewrite Hs. auto.
Qed.

Lemma fetch_error_is_transport_or_names_line_witness :
  exists line cause,
    line <> ""
    /\ fetch (newSource 0 0)
             (fun _ _ => Body ("198.51.100.0/24" ++ nl ++ "<html>" ++ nl)
                              None) ipv4
       = inr (ParsePrefixErr line cause).
Proof.
  destruct (fetch_error_is_transport_or_names_line
              (newSource 0 0)
              (fun _ _ => Body ("198.51.100.0/24" ++ nl ++ "<html>" ++ nl)
                               None)
              ipv4 (ParsePrefixErr "<html>" NoSlash))
    as [H|(data & readErr & line & cause & _ & _ & Hne & _ & He)].
  - vm_compute. reflexivity.
  - discriminate H.
  - exists line, cause. split; [exact Hne|]. rewrite <- He.
    vm_compute. reflexivity.
Defined.

(** ** The scanner over lines *)

Lemma string_app_assoc (a b c : string) :
  ((a ++ b) ++ c)%string = (a ++ (b ++ c))%string.
Proof.
  induction a as [|x a IH]; simpl; [reflexivity|]. rewrite IH. reflexivity.
Qed.

(** Reading the bytes of [l], none of them an LF, only moves them to the
    pending line, as long as the buffer is not full. *)
Lemma scanLines_advance (l tail : string) (rcur : list ascii) (n : Z)
      (e : option error) :
  no_LF l = true ->
  n + Z.of_nat (String.length l) <= Bufio.MaxScanTokenSize ->
  Bufio.scanLines rcur n (l ++ tail) e
  = Bufio.scanLines (rev (list_ascii_of_string l) ++ rcur)
                    (n + Z.of_nat (String.length l)) tail e.
Proof.
  revert rcur n. induction l as [|c l IH]; intros rcur n Hl Hn.
  - simpl. rewrite Z.add_0_r. reflexivity.
  - simpl in Hl. apply andb_prop in Hl. destruct Hl as [Hc Hl].
    apply negb_true_iff in Hc.
    cbn [append Bufio.scanLines]. rewrite Hc.
    cbn [String.length] in Hn.
    destruct (Z.leb_spec Bufio.MaxScanTokenSize n) as [Hge|Hlt]; [lia|].
    rewrite (IH (c :: rcur) (n + 1) Hl) by lia.
    cbn [list_ascii_of_string rev String.length].
    rewrite <- app_assoc. cbn [app].
    replace (n + 1 + Z.of_nat (String.length l))
      with (n + Z.of_nat (S (String.length l))) by lia.
    reflexivity.
Qed.

(** Once the pending line fills the buffer, one more byte stops the
    scanner. *)
Lemma scanLines_overflow (l tail : string) (c : ascii) (rcur : list ascii)
      (n : Z) (e : option error) :
  no_LF l = true ->
  Bufio.MaxScanTokenSize <= n + Z.of_nat (String.length l) ->
  Bufio.scanLines rcur n (l ++ String c tail) e
  = ([], Some Bufio.ErrTooLong).
Proof.
  revert rcur n. induction l as [|a l IH]; intros rcur n Hl Hn.
  - cbn [append Bufio.scanLines]. cbn [String.length] in Hn.
    destruct (Z.leb_spec Bufio.MaxScanTokenSize n); [reflexivity|lia].
  - simpl in Hl. apply andb_prop in Hl. destruct Hl as [Ha Hl].
    apply negb_true_iff in Ha.
    cbn [append Bufio.scanLines]. rewrite Ha.
    destruct (Z.leb_spec Bufio.MaxScanTokenSize n); [reflexivity|].
    apply IH; [exact Hl|]. cbn [String.length] in Hn. lia.
Qed.

Lemma lineToken_plain (l : string) :
  ends_with_CR l = false ->
  Bufio.lineToken (rev (list_ascii_of_string l)) = l.
Proof.
  unfold ends_with_CR, Bufio.lineToken. intros H.
  assert (Hm : match rev (list_ascii_of_string l) with
               | [] => rev (list_ascii_of_string l)
               | c :: t => if Ascii.eqb c Bufio.CR then t
                           else rev (list_ascii_of_string l)
               end = rev (list_ascii_of_string l)).
  { destruct (rev (list_ascii_of_string l)) as [|c t]; [reflexivity|].
    rewrite H. reflexivity. }
  rewrite Hm, rev_involutive. apply string_of_list_ascii_of_string.
Qed.

Lemma lineToken_CR (l : string) :
  Bufio.lineToken (Bufio.CR :: rev (list_ascii_of_string l)) = l.
Proof.
  unfold Bufio.lineToken. rewrite Ascii.eqb_refl, rev_involutive.
  apply string_of_list_ascii_of_string.
Qed.

(** The scanner over lines that are each ended by LF or each by CR LF
    hands out the lines, then goes on with what follows. *)
Lemma scanLines_unlines (eol : string) (ls : list string) (tail : string)
      (e : option error) :
  eol = nl \/ eol = CRLF ->
  Forall plain_line ls ->
  Bufio.scanLines [] 0 (unlines eol ls ++ tail) e
  = (ls ++ fst (Bufio.scanLines [] 0 tail e),
     snd (Bufio.scanLines [] 0 tail e)).
Proof.
  intros Heol H. induction H as [|l ls Hl _ IH].
  - simpl. destruct (Bufio.scanLines [] 0 tail e). reflexivity.
  - destruct Hl as (Hlf & Hcr & Hlen).
    cbn [unlines]. rewrite !string_app_assoc.
    rewrite (scanLines_advance l) by (try exact Hlf; lia).
    rewrite app_nil_r, Z.add_0_l.
    destruct Heol as [-> | ->].
    + unfold nl at 1. cbn [append Bufio.scanLines].
      destruct (Z.leb_spec Bufio.MaxScanTokenSize
                           (Z.of_nat (String.length l))); [lia|].
      rewrite Ascii.eqb_refl, IH, (lineToken_plain l Hcr). reflexivity.
    + unfold CRLF at 1. cbn [append Bufio.scanLines].
      destruct (Z.leb_spec Bufio.MaxScanTokenSize
                           (Z.of_nat (String.length l))); [lia|].
      change (Ascii.eqb Bufio.CR Bufio.LF) with false. cbn iota.
      destruct (Z.leb_spec Bufio.MaxScanTokenSize
                           (Z.of_nat (String.length l) + 1)); [lia|].
      rewrite Ascii.eqb_refl, IH, (lineToken_CR l). reflexivity.
Qed.

Lemma string_app_nil_r (a : string) : (a ++ "")%string = a.
Proof.
  induction a as [|x a IH]; simpl; [reflexivity|]. rewrite IH. reflexivity.
Qed.

Lemma fetch_loop_skips_blank (ls : list string) (acc : list Prefix) :
  fetch_loop (filter (fun l => negb (String.eqb l "")) ls) acc
  = fetch_loop ls acc.
Proof.
  revert acc. induction ls as [|l rest IH]; intros acc; simpl; [reflexivity|].
  destruct (String.eqb l "") eqn:He; simpl; [apply IH|].
  rewrite He. destruct (ParsePrefix l); [apply IH | reflexivity].
Qed.

(** X12. On a body that arrives whole and is made of lines each ended by
    LF, or each by CR LF, [fetch] is its loop over exactly these lines, with
    the empty ones left out: the result is the same for both kinds of line
    end and with or without blank lines. *)
Theorem fetch_over_terminated_lines
        (s : CloudflareIPRange) (net : HTTP) (api eol : string)
        (ls : list string) :
  eol = nl \/ eol = CRLF ->
  Forall plain_line ls ->
  net api (fetchTimeout s) = Body (unlines eol ls) None ->
  fetch s net api = fetch_loop ls []
  /\ fetch s net api
     = fetch_loop (filter (fun l => negb (String.eqb l "")) ls) [].
Proof.
  intros Heol Hls Hn.
  assert (Hf : fetch s net api = fetch_loop ls []).
  { unfold fetch, Bufio.Scan. rewrite Hn.
    rewrite <- (string_app_nil_r (unlines eol ls)).
    rewrite (scanLines_unlines eol ls "" None Heol Hls).
    cbn [Bufio.scanLines fst snd]. change (0 =? 0) with true. cbn iota.
    rewrite app_nil_r. reflexivity. }
  split; [exact Hf|]. rewrite fetch_loop_skips_blank. exact Hf.
Qed.

Lemma fetch_over_terminated_lines_witness :
  fetch (newSource 0 0)
        (fun _ _ => Body (unlines CRLF ["198.51.100.0/24"; "";
                                        "203.0.113.0/24"]) None) ipv4
  = fetch_loop ["198.51.100.0/24"; "203.0.113.0/24"] [].
Proof.
  apply (proj2 (fetch_over_terminated_lines
                  (newSource 0 0)
                  (fun _ _ => Body (unlines CRLF ["198.51.100.0/24"; "";
                                                  "203.0.113.0/24"]) None)
                  ipv4 CRLF ["198.51.100.0/24"; ""; "203.0.113.0/24"]
                  (or_intror eq_refl)
                  ltac:(repeat constructor; vm_compute; reflexivity)
                  eq_refl)).
Defined.

(** X13. A line of [MaxScanTokenSize] bytes or more that is followed by at
    least one more byte ends the body for [fetch] without any error: the
    result is the loop over the lines before it, and neither the long line
    nor anything after it is looked at. *)
Theorem fetch_stops_silently_at_long_line
        (s : CloudflareIPRange) (net : HTTP) (api eol : string)
        (ls : list string) (long tail : string) (c : ascii)
        (readErr : option error) :
  eol = nl \/ eol = CRLF ->
  Forall plain_line ls ->
  no_LF long = true ->
  Bufio.MaxScanTokenSize <= Z.of_nat (String.length long) ->
  net api (fetchTimeout s)
  = Body (unlines eol ls ++ long ++ String c tail) readErr ->
  Bufio.Scan (unlines eol ls ++ long ++ String c tail) readErr
  = (ls, Some Bufio.ErrTooLong)
  /\ fetch s net api = fetch_loop ls [].
Proof.
  intros Heol Hls Hlong Hlen Hn.
  assert (Hs : Bufio.Scan (unlines eol ls ++ long ++ String c tail) readErr
               = (ls, Some Bufio.ErrTooLong)).
  { unfold Bufio.Scan.
    rewrite (scanLines_unlines eol ls _ readErr Heol Hls).
    rewrite (scanLines_overflow long tail c [] 0 readErr Hlong) by lia.
    cbn [fst snd]. rewrite app_nil_r. reflexivity. }
  split; [exact Hs|]. unfold fetch. rewrite Hn, Hs. reflexivity.
Qed.

Lemma fetch_stops_silently_at_long_line_witness :
  fetch (newSource 0 0)
        (fun _ _ => Body (unlines nl ["198.51.100.0/24"]
                            ++ line_of_64KiB
                            ++ String Bufio.LF ("203.0.113.0/24" ++ nl))
                         None) ipv4
  = fetch_loop ["198.51.100.0/24"] [].
Proof.
  refine (proj2 (fetch_stops_silently_at_long_line
                   (newSource 0 0) _ ipv4 nl ["198.51.100.0/24"]
                   line_of_64KiB ("203.0.113.0/24" ++ nl) Bufio.LF None
                   (or_introl eq_refl) _ _ _ eq_refl)).
  - repeat constructor; vm_compute; reflexivity.
  - vm_compute. reflexivity.
  - vm_compute. discriminate.
Defined.

Lemma scanLines_tokens_whatever_the_end
      (rcur : list ascii) (n : Z) (data : string) (e e' : option error) :
  fst (Bufio.scanLines rcur n data e) = fst (Bufio.scanLines rcur n data e').
Proof.
  revert rcur n. induction data as [|c rest IH]; intros rcur n; simpl.
  - reflexivity.
  - destruct (Bufio.MaxScanTokenSize <=? n); [reflexivity|].
    destruct (Ascii.eqb c Bufio.LF); [|apply IH].
    specialize (IH [] 0).
    destruct (Bufio.scanLines [] 0 rest e),
             (Bufio.scanLines [] 0 rest e'). simpl in *.
    rewrite IH. reflexivity.
Qed.

(** X14. [fetch] cannot tell a body that was cut by a read error from a
    body that ended at the same byte: the result depends on the bytes that
    arrived only, whether they were followed by the end of the stream or by
    an error. *)
Theorem fetch_ignores_how_the_body_ended
        (s : CloudflareIPRange) (net net' : HTTP) (api data : string)
        (readErr readErr' : option error) :
  net api (fetchTimeout s) = Body data readErr ->
  net' api (fetchTimeout s) = Body data readErr' ->
  fetch s net api = fetch s net' api.
Proof.
  intros H H'. unfold fetch, Bufio.Scan. rewrite H, H'.
  pose proof (scanLines_tokens_whatever_the_end [] 0 data readErr readErr')
    as Ht.
  destruct (Bufio.scanLines [] 0 data readErr),
           (Bufio.scanLines [] 0 data readErr'). simpl in Ht.
  rewrite Ht. reflexivity.
Qed.

Lemma fetch_ignores_how_the_body_ended_witness :
  fetch (newSource 0 0)
        (fun _ _ => Body ("198.51.100.0/24" ++ nl ++ "203.0.113")
                         (Some (TransportErr "unexpected EOF"))) ipv4
  = fetch (newSource 0 0)
          (fun _ _ => Body ("198.51.100.0/24" ++ nl ++ "203.0.113") None)
          ipv4.
Proof.
  apply (fetch_ignores_how_the_body_ended
           (newSource 0 0) _ _ ipv4
           ("198.51.100.0/24" ++ nl ++ "203.0.113")
           (Some (TransportErr "unexpected EOF")) None);
    reflexivity.
Defined.

(** ** Provisioning the matcher, then matching *)

(** X15. What [Provision] of a new matcher does is decided by the raw
    provider configuration and the module loader alone.  It returns an
    error exactly when a configuration is present and the loader fails on
    it: that error, the matcher left as it was.  It panics exactly when the
    loaded module is no range source.  It returns nil exactly when no
    configuration is present, and then [Match] is false for every request,
    or when the loader gives a range source, and then [Match] is the
    disjunction of [Contains] over the snapshot of that source. *)
Theorem matcher_Provision_then_Match
        (raw : option string) (load : Matcher.LoadModule) :
  (forall e m',
      Matcher.Provision raw (mkMatcher None) load
      = Matcher.Returns (Some e) m'
      <-> m' = mkMatcher None
          /\ exists rawv, raw = Some rawv /\ load rawv = inr e)
  /\ (Matcher.Provision raw (mkMatcher None) load = Matcher.Panics
      <-> exists rawv, raw = Some rawv /\ load rawv = inl Matcher.NotSource)
  /\ (forall m',
         Matcher.Provision raw (mkMatcher None) load = Matcher.Returns None m'
         <-> (raw = None /\ m' = mkMatcher None)
             \/ exists rawv p,
                 raw = Some rawv /\ load rawv = inl (Matcher.IsSource p)
                 /\ m' = mkMatcher (Some p))
  /\ (forall m',
         Matcher.Provision raw (mkMatcher None) load = Matcher.Returns None m'
         -> (raw = None /\ forall r, fst (Match m' r) = false)
            \/ exists rawv p,
                raw = Some rawv /\ load rawv = inl (Matcher.IsSource p)
                /\ forall r a,
                    parseIPZoneFromString (RemoteAddr r) = inl a ->
                    fst (Match m' r)
                    = existsb (fun q => Contains q a) (providerRanges p r)).
Proof.
  assert (Hnil : forall m',
             Matcher.Provision raw (mkMatcher None) load
             = Matcher.Returns None m'
             <-> (raw = None /\ m' = mkMatcher None)
                 \/ exists rawv p,
                     raw = Some rawv /\ load rawv = inl (Matcher.IsSource p)
                     /\ m' = mkMatcher (Some p)).
  { intros m'. unfold Matcher.Provision. destruct raw as [rawv|].
    - destruct (load rawv) as [[p|]|e0] eqn:Hl; split.
      + intros H. inversion H; subst. right. exists rawv, p. auto.
      + intros [[H _]|(rawv' & p' & Hr & Hl' & ->)]; [discriminate|].
        inversion Hr; subst rawv'. rewrite Hl in Hl'.
        inversion Hl'; subst. reflexivity.
      + discriminate.
      + intros [[H _]|(rawv' & p' & Hr & Hl' & _)]; [discriminate|].
        inversion Hr; subst rawv'. rewrite Hl in Hl'. discriminate.
      + discriminate.
      + intros [[H _]|(rawv' & p' & Hr & Hl' & _)]; [discriminate|].
        inversion Hr; subst rawv'. rewrite Hl in Hl'. discriminate.
    - split.
      + intros H. inversion H; subst. left. auto.
      + intros [[_ ->]|(rawv & p & Hr & _)]; [reflexivity|discriminate]. }
  split; [|split; [|split; [exact Hnil|]]].
  - intros e m'. unfold Matcher.Provision. destruct raw as [rawv|].
    + destruct (load rawv) as [[p|]|e0] eqn:Hl; split;
        try discriminate;
        try (intros (_ & rawv' & Hr & Hl'); inversion Hr; subst rawv';
             rewrite Hl in Hl'; discriminate).
      * intros H. inversion H; subst. split; [reflexivity|].
        exists rawv. auto.
      * intros (-> & rawv' & Hr & Hl'). inversion Hr; subst rawv'.
        rewrite Hl in Hl'. inversion Hl'; subst. reflexivity.
    + split; [discriminate|]. intros (_ & rawv & Hr & _). discriminate.
  - unfold Matcher.Provision. destruct raw as [rawv|].
    + destruct (load rawv) as [[p|]|e0] eqn:Hl; split;
        try discriminate;
        try (intros (rawv' & Hr & Hl'); inversion Hr; subst rawv';
             rewrite Hl in Hl'; discriminate).
      * intros _. exists rawv. auto.
      * intros _. reflexivity.
    + split; [discriminate|]. intros (rawv & Hr & _). discriminate.
  - intros m' H. apply Hnil in H.
    destruct H as [[-> ->]|(rawv & p & -> & Hl & ->)].
    + left. split; [reflexivity|]. intros r. unfold Match.
      destruct (parseIPZoneFromString (RemoteAddr r)); reflexivity.
    + right. exists rawv, p. split; [reflexivity|]. split; [exact Hl|].
      intros r a Ha. unfold Match. rewrite Ha. simpl.
      apply Match_loop_existsb.
Qed.

Lemma matcher_Provision_then_Match_witness :
  Matcher.Provision
    (Some "{}") (mkMatcher None)
    (fun _ => inl (Matcher.IsSource
                     (asProvider (mkSource 0 0 [prefix_198_51_100_0_24]))))
  = Matcher.Returns None matcher_198_51_100
  /\ Matcher.Provision
       (Some "{}") (mkMatcher None)
       (fun _ => inr (TransportErr "unknown module"))
     = Matcher.Returns (Some (TransportErr "unknown module")) (mkMatcher None)
  /\ Matcher.Provision (Some "{}") (mkMatcher None)
                       (fun _ => inl Matcher.NotSource)
     = Matcher.Panics.
Proof.
  split; [|split].
  - apply (proj1 (proj2 (proj2 (matcher_Provision_then_Match
                                  (Some "{}") _)))).
    right. exists "{}", (asProvider (mkSource 0 0 [prefix_198_51_100_0_24])).
    repeat split; reflexivity.
  - apply (proj1 (matcher_Provision_then_Match (Some "{}") _)).
    split; [reflexivity|]. exists "{}". split; reflexivity.
  - apply (proj1 (proj2 (matcher_Provision_then_Match (Some "{}") _))).
    exists "{}". split; reflexivity.
Defined.

(** ** Prefix lengths *)

Lemma Prefix_ok_parts (p : Prefix) :
  Prefix_ok p = true ->
  IsValid p = true /\ 0 <= Bits p <= BitLen (ip p) /\ Addr_ok (ip p) = true
  /\ isZero (ip p) = false /\ hasZone (ip p) = false.
Proof.
  unfold Prefix_ok. intros H.
  repeat (apply andb_prop in H; destruct H as [H ?]).
  apply negb_true_iff in H0, H1. apply Z.leb_le in H3.
  unfold IsValid in H. pose proof H as Hv. apply Z.ltb_lt in Hv.
  unfold Bits in *. repeat split; auto; lia.
Qed.

(** A valid prefix of length 0 contains every well-formed address of its
    family that carries no zone. *)
Lemma Contains_zero_length (p : Prefix) (a : Addr) :
  Prefix_ok p = true -> Bits p = 0 ->
  Addr_ok a = true -> hasZone a = false ->
  family_of a = family_of (ip p) ->
  Contains p a = true.
Proof.
  intros Hp Hb Ha Hz Hf.
  destruct (Prefix_ok_parts p Hp) as (Hv & _ & Hpa & Hpz & Hpzone).
  destruct p as [[[ph pl] pz] b], a as [[ah al] az].
  unfold Contains, IsValid, Bits, PrefixAddr, hasZone, BitLen, Is4, isZero,
    family_of, Addr_ok, u128_isZero, u128_and, u128_xor in *.
  cbn [ip bitsPlusOne addr z hi lo] in *.
  rewrite Hv, Hb. cbn [negb orb].
  destruct pz as [| | |zn]; cbn [zone_eqb negb andb] in *; try discriminate;
    destruct az as [| | |an]; cbn [zone_eqb negb andb orb] in *;
    try discriminate.
  - change (32 =? 0) with false. change (32 =? 32) with true.
    cbn [negb orb].
    apply andb_prop in Ha; destruct Ha as [_ Hal].
    apply andb_prop in Hpa; destruct Hpa as [_ Hpl].
    apply Z.eqb_eq in Hal, Hpl. apply Z.eqb_eq.
    change (Z.land (32 - 0) 63) with 32. unfold shr64.
    rewrite Z.shiftr_lxor, Hal, Hpl. reflexivity.
  - change (128 =? 0) with false. change (128 =? 128) with true.
    cbn [negb orb].
    change (mask6 0) with (mkU128 0 0). cbn [hi lo].
    rewrite !Z.land_0_r. reflexivity.
Qed.

(** X16. One prefix of length 0 in the snapshot ([0.0.0.0/0] or [::/0] in
    the list) makes [Match] true for every request whose peer address
    parses to an address of that prefix's family. *)
Theorem zero_length_prefix_matches_every_peer
        (m : MatchDynamicRemoteIP) (src : provider) (r : Request)
        (p : Prefix) (a : Addr) :
  Providers m = Some src ->
  In p (providerRanges src r) ->
  Prefix_ok p = true -> Bits p = 0 ->
  parseIPZoneFromString (RemoteAddr r) = inl a ->
  family_of a = family_of (ip p) ->
  fst (Match m r) = true.
Proof.
  intros Hs Hin Hp Hb Ha Hf.
  destruct (parseIPZoneFromString_ok _ _ Ha) as [Hok Hz].
  unfold Match. rewrite Ha, Hs. simpl. apply Match_loop_true_iff.
  exists p. split; [exact Hin|].
  apply Contains_zero_length; assumption.
Qed.

Lemma zero_length_prefix_matches_every_peer_witness :
  fst (Match (mkMatcher (Some (asProvider
                (mkSource 0 0 [prefix_2001_db8_32;
                               PrefixFrom (AddrFrom4 0 0 0 0) 0]))))
             (mkRequest "203.0.113.5:443")) = true.
Proof.
  apply (zero_length_prefix_matches_every_peer
           _ (asProvider (mkSource 0 0 [prefix_2001_db8_32;
                                        PrefixFrom (AddrFrom4 0 0 0 0) 0]))
           (mkRequest "203.0.113.5:443")
           (PrefixFrom (AddrFrom4 0 0 0 0) 0) addr_203_0_113_5).
  - reflexivity.
  - right. left. reflexivity.
  - vm_compute. reflexivity.
  - vm_compute. reflexivity.
  - vm_compute. reflexivity.
  - vm_compute. reflexivity.
Defined.

Lemma land_mask_narrow (x y m1 m2 : Z) :
  (forall j, 0 <= j -> Z.testbit m2 j = true -> Z.testbit m1 j = true) ->
  Z.land x m1 = Z.land y m1 -> Z.land x m2 = Z.land y m2.
Proof.
  intros Hsub Heq. apply Z.bits_inj'. intros j Hj.
  rewrite !Z.land_spec.
  destruct (Z.testbit m2 j) eqn:Hm2; [|rewrite !andb_false_r; reflexivity].
  assert (Hb : Z.testbit (Z.land x m1) j = Z.testbit (Z.land y m1) j)
    by (rewrite Heq; reflexivity).
  rewrite !Z.land_spec, (Hsub j Hj Hm2) in Hb.
  rewrite !andb_true_r in *. exact Hb.
Qed.

(** Equality under a mask carries over to every shorter mask. *)
Lemma mask6_narrow (x y : uint128) (n b : Z) :
  0 <= n <= b -> b <= 128 ->
  u128_and x (mask6 b) = u128_and y (mask6 b) ->
  u128_and x (mask6 n) = u128_and y (mask6 n).
Proof.
  intros Hn Hb. unfold u128_and, mask6. cbn [hi lo]. intros H.
  pose proof (f_equal hi H) as Hh. pose proof (f_equal lo H) as Hl.
  cbn [hi lo] in Hh, Hl. clear H. f_equal.
  - revert Hh. apply land_mask_narrow. intros j Hj.
    rewrite !testbit_hi_mask by lia. intros Ht.
    apply andb_prop in Ht. destruct Ht as [H1 H2]. rewrite H1. simpl.
    apply Z.leb_le in H2. apply Z.leb_le. lia.
  - revert Hl. apply land_mask_narrow. intros j Hj.
    rewrite !testbit_shl64_all64 by lia. intros Ht.
    apply andb_prop in Ht. destruct Ht as [H1 H2]. rewrite H2.
    rewrite andb_true_r. apply Z.leb_le in H1. apply Z.leb_le. lia.
Qed.

Lemma PrefixFrom_fields (x : Addr) (n : Z) :
  isZero x = false -> hasZone x = false -> 0 <= n <= BitLen x ->
  ip (PrefixFrom x n) = x /\ Bits (PrefixFrom x n) = n.
Proof.
  intros Hz Hzone Hn.
  assert (H128 : BitLen x <= 128) by (unfold BitLen; destruct (z x); lia).
  unfold PrefixFrom, Bits. cbn [ip bitsPlusOne]. rewrite Hz. cbn [negb andb].
  destruct (Z.leb_spec 0 n); [|lia].
  destruct (Z.leb_spec n (BitLen x)); [|lia]. cbn [andb].
  rewrite Z.mod_small by lia. split; [|lia].
  unfold withoutZone, Is6, hasZone in *. destruct x as [u zx].
  cbn [z addr] in *.
  destruct zx; cbn [zone_eqb negb andb] in *; try reflexivity; discriminate.
Qed.

Lemma family_Is4 (a b : Addr) :
  family_of a = family_of b -> Is4 a = Is4 b /\ BitLen a = BitLen b.
Proof.
  unfold family_of, Is4, BitLen.
  destruct (z a), (z b); simpl; intros H; try discriminate; auto.
Qed.

(** X17. Shortening a prefix never loses an address: what a valid prefix
    contains, every prefix of the same address with a smaller length
    contains as well. *)
Theorem shorter_prefix_contains_more (p : Prefix) (a : Addr) (n : Z) :
  Prefix_ok p = true -> Addr_ok a = true -> 0 <= n <= Bits p ->
  Contains p a = true ->
  Contains (PrefixFrom (ip p) n) a = true.
Proof.
  intros Hp Ha Hn Hc.
  destruct (Prefix_ok_parts p Hp) as (Hv & Hb & Hpa & Hpz & Hpzone).
  assert (H128 : BitLen (ip p) <= 128)
    by (unfold BitLen; destruct (z (ip p)); lia).
  destruct (PrefixFrom_fields (ip p) n Hpz Hpzone ltac:(lia)) as [Hip Hbits].
  assert (Hp' : Prefix_ok (PrefixFrom (ip p) n) = true)
    by (apply PrefixFrom_ok; auto; lia).
  apply (Contains_iff_spec p a Hp Ha) in Hc. destruct Hc as [Hf Hm].
  apply (Contains_iff_spec _ a Hp' Ha).
  unfold contains_spec, network. rewrite Hip, Hbits. split; [exact Hf|].
  unfold network, mask_to_length in *.
  destruct (family_Is4 a (ip p) Hf) as [H4 Hlen].
  rewrite H4 in *.
  pose proof (f_equal z Hm) as Hz. pose proof (f_equal addr Hm) as Hu.
  cbn [z addr] in Hz, Hu. clear Hm. rewrite Hz. f_equal.
  destruct (Is4 (ip p)) eqn:Hi4.
  - assert (BitLen (ip p) = 32).
    { unfold Is4, BitLen in *. destruct (z (ip p)); simpl in Hi4;
        try discriminate; reflexivity. }
    apply (mask6_narrow _ _ (n + 96) (Bits p + 96)); [lia | lia | exact Hu].
  - apply (mask6_narrow _ _ n (Bits p)); [lia | lia | exact Hu].
Qed.

Lemma shorter_prefix_contains_more_witness :
  Contains (PrefixFrom (ip prefix_198_51_100_0_24) 16) addr_198_51_100_42
  = true.
Proof.
  apply shorter_prefix_contains_more; vm_compute; try reflexivity.
  split; discriminate.
Defined.

(** X18. The host bits written in a prefix do not count: two valid prefixes
    of one length whose network values (family, number with all but the
    leading bits cleared, zone) are the same contain the same addresses. *)
Theorem host_bits_of_a_prefix_are_ignored (p q : Prefix) (a : Addr) :
  Prefix_ok p = true -> Prefix_ok q = true -> Addr_ok a = true ->
  Bits p = Bits q ->
  network_value p = network_value q ->
  Contains p a = Contains q a.
Proof.
  intros Hp Hq Ha Hb Hn.
  pose proof (Contains_iff_in_prefix p a Hp Ha) as Ip.
  pose proof (Contains_iff_in_prefix q a Hq Ha) as Iq.
  assert (Hf : val_family (value_of (ip p)) = val_family (value_of (ip q)))
    by exact (f_equal val_family Hn).
  assert (Hs : in_prefix p a <-> in_prefix q a).
  { unfold in_prefix. rewrite Hf, Hb, Hn. reflexivity. }
  destruct (Contains p a), (Contains q a); try reflexivity.
  - symmetry. apply Iq, Hs, Ip. reflexivity.
  - apply Ip, Hs, Iq. reflexivity.
Qed.

Lemma host_bits_of_a_prefix_are_ignored_witness :
  Contains (PrefixFrom (AddrFrom4 198 51 100 77) 24) addr_198_51_101_1
  = Contains prefix_198_51_100_0_24 addr_198_51_101_1
  /\ Contains (PrefixFrom addr_2001_db8__1 32) addr_2001_db8__1
     = Contains prefix_2001_db8_32 addr_2001_db8__1.
Proof.
  split; apply host_bits_of_a_prefix_are_ignored; vm_compute; reflexivity.
Defined.

(** Masking to the full width of the family changes nothing. *)
Lemma mask_to_full_length (x : Addr) :
  Addr_ok x = true -> isZero x = false ->
  mask_to_length x (BitLen x) = x.
Proof.
  intros Hok Hz. destruct (Addr_ok_range x Hok) as [Hh Hl].
  unfold mask_to_length, BitLen, Is4, isZero in *.
  destruct x as [[h l] zx]. cbn [z addr hi lo] in *.
  destruct zx; cbn [zone_eqb] in *; try discriminate;
    change (mask6 (32 + 96)) with (mkU128 all64 all64);
    change (mask6 128) with (mkU128 all64 all64);
    unfold u128_and; cbn [hi lo];
    rewrite !land_all64 by assumption; reflexivity.
Qed.

(** A valid prefix of full length contains one address only, its own. *)
Lemma Contains_full_length (p : Prefix) (a : Addr) :
  Prefix_ok p = true -> Bits p = BitLen (ip p) -> Addr_ok a = true ->
  (Contains p a = true <-> a = ip p).
Proof.
  intros Hp Hb Ha.
  destruct (Prefix_ok_parts p Hp) as (Hv & _ & Hpa & Hpz & Hpzone).
  rewrite (Contains_iff_spec p a Hp Ha).
  unfold contains_spec, network. rewrite Hb. split.
  - intros [Hf Hm].
    destruct (family_Is4 a (ip p) Hf) as [_ Hlen].
    assert (Haz : isZero a = false).
    { unfold isZero, family_of in *.
      destruct (z a), (z (ip p)); simpl in *; try discriminate; auto. }
    rewrite <- Hlen in Hm at 1.
    rewrite (mask_to_full_length a Ha Haz) in Hm.
    rewrite (mask_to_full_length (ip p) Hpa Hpz) in Hm. exact Hm.
  - intros ->. split; reflexivity.
Qed.

(** X19. With a snapshot of one valid prefix of full length (/32 for
    IPv4, /128 for IPv6), [Match] is true exactly for the requests whose
    peer address parses to the address of that prefix. *)
Theorem full_length_prefix_matches_one_address
        (m : MatchDynamicRemoteIP) (src : provider) (r : Request)
        (p : Prefix) (a : Addr) :
  Providers m = Some src ->
  providerRanges src r = [p] ->
  Prefix_ok p = true -> Bits p = BitLen (ip p) ->
  parseIPZoneFromString (RemoteAddr r) = inl a ->
  (fst (Match m r) = true <-> a = ip p).
Proof.
  intros Hs Hr Hp Hb Ha.
  destruct (parseIPZoneFromString_ok _ _ Ha) as [Hok _].
  unfold Match. rewrite Ha, Hs, Hr. simpl.
  rewrite <- (Contains_full_length p a Hp Hb Hok).
  destruct (Contains p a); split; auto; discriminate.
Qed.

Lemma full_length_prefix_matches_one_address_witness :
  (fst (Match (mkMatcher (Some (asProvider
                 (mkSource 0 0 [PrefixFrom addr_198_51_100_42 32]))))
              (mkRequest "198.51.100.42:51234")) = true
   <-> addr_198_51_100_42 = ip (PrefixFrom addr_198_51_100_42 32)).
Proof.
  apply (full_length_prefix_matches_one_address
           _ (asProvider (mkSource 0 0 [PrefixFrom addr_198_51_100_42 32]))
           (mkRequest "198.51.100.42:51234")
           (PrefixFrom addr_198_51_100_42 32) addr_198_51_100_42);
    vm_compute; reflexivity.
Defined.

(** ** The shapes [SplitHostPort] accepts *)

Section Cutting.
Variable c : ascii.

Lemma index_splits (s : string) (i : nat) :
  IndexByteString s c = Some i ->
  s = (take i s ++ String c (drop (S i) s))%string.
Proof.
  revert i. induction s as [|a s IH]; intros i; simpl; [discriminate|].
  destruct (Ascii.eqb_spec a c) as [->|Hne].
  - intros H. inversion H; subst. reflexivity.
  - destruct (IndexByteString s c) as [j|]; [|discriminate].
    intros H. inversion H; subst.
    change (take (S j) (String a s)) with (String a (take j s)).
    change (drop (S (S j)) (String a s)) with (drop (S j) s).
    cbn [append]. f_equal. exact (IH j eq_refl).
Qed.

Lemma last_index_splits (s : string) (i : nat) :
  LastIndexByteString s c = Some i ->
  s = (take i s ++ String c (drop (S i) s))%string
  /\ IndexByteString (drop (S i) s) c = None.
Proof.
  revert i. induction s as [|a s IH]; intros i; simpl; [discriminate|].
  destruct (LastIndexByteString s c) as [j|] eqn:Hl.
  - intros H. inversion H; subst.
    destruct (IH j eq_refl) as [Hs Hn].
    change (take (S j) (String a s)) with (String a (take j s)).
    change (drop (S (S j)) (String a s)) with (drop (S j) s).
    cbn [append]. split; [f_equal; exact Hs | exact Hn].
  - destruct (Ascii.eqb_spec a c) as [->|Hne]; [|discriminate].
    intros H. inversion H; subst. simpl. split; [reflexivity|].
    clear IH. induction s as [|b s IHs]; simpl in *; [reflexivity|].
    destruct (LastIndexByteString s c); [discriminate|].
    destruct (Ascii.eqb b c); [discriminate|].
    rewrite (IHs eq_refl). reflexivity.
Qed.

Lemma last_index_byte (s : string) (i : nat) :
  LastIndexByteString s c = Some i ->
  drop i s = String c (drop (S i) s).
Proof.
  revert i. induction s as [|a s IH]; intros i; simpl; [discriminate|].
  destruct (LastIndexByteString s c) as [j|] eqn:Hl.
  - intros H. inversion H; subst.
    change (drop (S j) (String a s)) with (drop j s).
    change (drop (S (S j)) (String a s)) with (drop (S j) s).
    exact (IH j eq_refl).
  - destruct (Ascii.eqb_spec a c) as [->|Hne]; [|discriminate].
    intros H. inversion H; subst. reflexivity.
Qed.

Lemma index_app_none (h t : string) :
  IndexByteString h c = None ->
  IndexByteString (h ++ t) c
  = option_map (Nat.add (String.length h)) (IndexByteString t c).
Proof.
  induction h as [|a h IH]; simpl.
  - intros _. destruct (IndexByteString t c); reflexivity.
  - destruct (Ascii.eqb a c); [discriminate|].
    destruct (IndexByteString h c); [discriminate|].
    intros _. rewrite (IH eq_refl).
    destruct (IndexByteString t c); reflexivity.
Qed.

Lemma last_index_app_sep (h p : string) :
  IndexByteString p c = None ->
  LastIndexByteString (h ++ String c p) c = Some (String.length h).
Proof.
  intros Hp. induction h as [|a h IH]; simpl.
  - rewrite (IndexByteString_none_last c p Hp), Ascii.eqb_refl. reflexivity.
  - rewrite IH. reflexivity.
Qed.
End Cutting.

Lemma take_length_app (h t : string) : take (String.length h) (h ++ t) = h.
Proof.
  induction h as [|a h IH]; simpl; [destruct t; reflexivity|].
  rewrite IH. reflexivity.
Qed.

Lemma drop_length_app (h t : string) : drop (String.length h) (h ++ t) = t.
Proof. induction h as [|a h IH]; simpl; [reflexivity | exact IH]. Qed.

Lemma drop_succ (k : nat) (s : string) : drop (S k) s = drop 1 (drop k s).
Proof.
  revert s. induction k as [|k IH]; intros s; [reflexivity|].
  destruct s as [|a s]; [reflexivity|].
  change (drop (S (S k)) (String a s)) with (drop (S k) s).
  change (drop (S k) (String a s)) with (drop k s). apply IH.
Qed.

Lemma starts_with_none (b : ascii) (s : string) :
  IndexByteString s b = None -> starts_with b s = false.
Proof.
  destruct s as [|a s]; simpl; [reflexivity|].
  destruct (Ascii.eqb a b); [discriminate | reflexivity].
Qed.

(** X20. What [SplitHostPort] returns is cut out of its input: the input
    is either [host:port] with no colon in the host, or [[host]:port] with
    no closing bracket in the host, and the port has no colon. *)
Theorem SplitHostPort_result_shape (hostport host port : string) :
  Net.SplitHostPort hostport = inl (host, port) ->
  IndexByteString port ":" = None
  /\ ((hostport = (host ++ ":" ++ port)%string
       /\ IndexByteString host ":" = None
       /\ starts_with "[" hostport = false)
      \/ (hostport = ("[" ++ host ++ "]:" ++ port)%string
          /\ IndexByteString host "]" = None)).
Proof.
  unfold Net.SplitHostPort, Net.bracketChecks, Net.addrErr, fail, ok.
  destruct (LastIndexByteString hostport ":") as [i|] eqn:Hl; [|discriminate].
  destruct (last_index_splits ":" hostport i Hl) as [Hs Hn].
  destruct (starts_with "[" hostport) eqn:Hb.
  - destruct hostport as [|a s1]; [discriminate|]. simpl in Hb.
    apply Ascii.eqb_eq in Hb. subst a.
    destruct (IndexByteString (String "[" s1) "]") as [end_|] eqn:He;
      [|discriminate].
    simpl in He. destruct (IndexByteString s1 "]") as [e1|] eqn:He1;
      [|discriminate].
    inversion He; subst end_. clear He.
    destruct (S (S e1) =? String.length (String "[" s1))%nat; [discriminate|].
    destruct (Nat.eqb_spec (S (S e1)) i) as [Hi|Hi].
    2:{ destruct (starts_with ":" (drop (S (S e1)) (String "[" s1)));
        discriminate. }
    subst i.
    destruct (IndexByteString (drop 1 (String "[" s1)) "["); [discriminate|].
    destruct (IndexByteString (drop (S (S e1)) (String "[" s1)) "]");
      [discriminate|].
    intros H. inversion H; subst host port. clear H.
    split; [exact Hn|]. right.
    cbn [drop take Nat.sub] in *. rewrite Nat.sub_0_r.
    split; [|apply IndexByteString_take; exact He1].
    pose proof (index_splits "]" s1 e1 He1) as Hs1.
    (* the byte after the bracket is the last colon *)
    assert (Hc : drop (S e1) s1 = String ":" (drop (S (S e1)) s1))
      by exact (last_index_byte ":" (String "[" s1) (S (S e1)) Hl).
    cbn [append]. f_equal. rewrite Hs1 at 1. rewrite Hc. reflexivity.
  - destruct (IndexByteString (take i hostport) ":") eqn:Hh; [discriminate|].
    destruct (IndexByteString (drop 0 hostport) "["); [discriminate|].
    destruct (IndexByteString (drop 0 hostport) "]"); [discriminate|].
    intros H. inversion H; subst host port. clear H.
    split; [exact Hn|]. left. split; [exact Hs|]. auto.
Qed.

Lemma SplitHostPort_result_shape_witness :
  "[2001:db8::1%eth0]:443"
  = ("[" ++ "2001:db8::1%eth0" ++ "]:" ++ "443")%string
  /\ IndexByteString "443" ":" = None.
Proof.
  destruct (SplitHostPort_result_shape
              "[2001:db8::1%eth0]:443" "2001:db8::1%eth0" "443")
    as [Hp [[_ [_ Hb]]|[Hs _]]].
  - vm_compute. reflexivity.
  - vm_compute in Hb. discriminate Hb.
  - split; [exact Hs | exact Hp].
Defined.

Lemma index_app_both_none (c : ascii) (h t : string) :
  IndexByteString h c = None -> IndexByteString t c = None ->
  IndexByteString (h ++ t) c = None.
Proof.
  intros Hh Ht. rewrite (index_app_none c h t Hh), Ht. reflexivity.
Qed.

Lemma length_app (h t : string) :
  String.length (h ++ t) = (String.length h + String.length t)%nat.
Proof.
  induction h as [|a h IH]; simpl; [reflexivity|]. rewrite IH. reflexivity.
Qed.

(** X21. [SplitHostPort] takes apart what was put together: [host:port]
    when the host has no colon, and [[host]:port] for any host, colons and
    a zone included, as long as host and port hold no bracket and the port
    no colon. *)
Theorem SplitHostPort_of_joined (host port : string) :
  IndexByteString host "[" = None -> IndexByteString host "]" = None ->
  IndexByteString port ":" = None ->
  IndexByteString port "[" = None -> IndexByteString port "]" = None ->
  Net.SplitHostPort ("[" ++ host ++ "]:" ++ port) = inl (host, port)
  /\ (IndexByteString host ":" = None ->
      Net.SplitHostPort (host ++ ":" ++ port) = inl (host, port)).
Proof.
  intros Hho Hhc Hpc Hpo Hpcl. split.
  - change ("[" ++ host ++ "]:" ++ port)%string
      with (String "[" (host ++ String "]" (String ":" port))).
    set (s1 := (host ++ String "]" (String ":" port))%string).
    assert (Hs1 : s1 = ((host ++ "]") ++ String ":" port)%string).
    { unfold s1. rewrite string_app_assoc. reflexivity. }
    assert (Hlast : LastIndexByteString s1 ":"
                    = Some (S (String.length host))).
    { rewrite Hs1, (last_index_app_sep ":" _ port Hpc), length_app.
      simpl. f_equal. lia. }
    assert (Hend : IndexByteString s1 "]" = Some (String.length host)).
    { unfold s1. rewrite (index_app_none "]" host _ Hhc). simpl.
      f_equal. lia. }
    unfold Net.SplitHostPort. cbn [LastIndexByteString starts_with].
    rewrite Hlast. change (Ascii.eqb "[" "[") with true. cbn iota.
    cbn [IndexByteString]. change (Ascii.eqb "[" "]") with false. cbn iota.
    rewrite Hend. cbn [option_map].
    assert (Hlen : String.length (String "[" s1)
                   = (String.length host + 3 + String.length port)%nat).
    { unfold s1. cbn [String.length]. rewrite length_app. simpl. lia. }
    rewrite Hlen.
    destruct (Nat.eqb_spec (S (S (String.length host)))
                           (String.length host + 3 + String.length port));
      [lia|].
    rewrite Nat.eqb_refl.
    unfold Net.bracketChecks.
    change (drop 1 (String "[" s1)) with s1.
    change (drop (S (S (String.length host))) (String "[" s1))
      with (drop (S (String.length host)) s1).
    change (drop (S (S (S (String.length host)))) (String "[" s1))
      with (drop (S (S (String.length host))) s1).
    assert (Hd1 : drop (S (String.length host)) s1 = String ":" port).
    { rewrite Hs1.
      replace (S (String.length host))
        with (String.length (host ++ "]")) by (rewrite length_app; simpl; lia).
      apply drop_length_app. }
    assert (Hd2 : drop (S (S (String.length host))) s1 = port)
      by (rewrite drop_succ, Hd1; reflexivity).
    assert (Ho : IndexByteString s1 "[" = None).
    { unfold s1. apply index_app_both_none; [exact Hho|]. simpl.
      rewrite Hpo. reflexivity. }
    rewrite Ho, Hd1, Hd2. cbn [IndexByteString].
    change (Ascii.eqb ":" "]") with false. cbn iota. rewrite Hpcl.
    cbn [option_map]. unfold ok. f_equal. f_equal.
    change (S (String.length host) - 1)%nat
      with (String.length host - 0)%nat.
    rewrite Nat.sub_0_r. unfold s1. apply take_length_app.
  - intros Hhcol.
    change (":" ++ port)%string with (String ":" port).
    unfold Net.SplitHostPort.
    rewrite (last_index_app_sep ":" host port Hpc).
    rewrite (starts_with_app ":" host port (starts_with_none "[" host Hho)
                             eq_refl).
    rewrite take_length_app, Hhcol. unfold Net.bracketChecks.
    change (drop 0 (host ++ String ":" port))
      with (host ++ String ":" port)%string.
    rewrite (index_app_both_none "[" host _ Hho)
      by (simpl; rewrite Hpo; reflexivity).
    rewrite (index_app_both_none "]" host _ Hhc)
      by (simpl; rewrite Hpcl; reflexivity).
    unfold ok. f_equal. f_equal.
    rewrite drop_succ, drop_length_app. reflexivity.
Qed.

Lemma SplitHostPort_of_joined_witness :
  Net.SplitHostPort ("[" ++ "fe80::1%eth0" ++ "]:" ++ "443")
  = inl ("fe80::1%eth0", "443")
  /\ Net.SplitHostPort ("198.51.100.42" ++ ":" ++ "51234")
     = inl ("198.51.100.42", "51234").
Proof.
  split.
  - apply (proj1 (SplitHostPort_of_joined "fe80::1%eth0" "443"
                    eq_refl eq_refl eq_refl eq_refl eq_refl)).
  - apply (proj2 (SplitHostPort_of_joined "198.51.100.42" "51234"
                    eq_refl eq_refl eq_refl eq_refl eq_refl)).
    reflexivity.
Defined.

(** X22. For a peer address of the form [[h%zone]:port], zone and port are
    both thrown away: the result is [ParseAddr h], the same as for
    [[h]:port], whatever the zone and the port are (no bracket in them, no
    colon in the port, no '%' in [h]), so [Match] decides the same for
    every zone and every port. *)
Theorem bracketed_zone_and_port_are_discarded (h zn port : string) :
  IndexByteString h "%" = None ->
  IndexByteString h "[" = None -> IndexByteString h "]" = None ->
  IndexByteString zn "[" = None -> IndexByteString zn "]" = None ->
  IndexByteString port ":" = None ->
  IndexByteString port "[" = None -> IndexByteString port "]" = None ->
  parseIPZoneFromString ("[" ++ (h ++ "%" ++ zn) ++ "]:" ++ port)
  = ParseAddr h
  /\ parseIPZoneFromString ("[" ++ h ++ "]:" ++ port) = ParseAddr h
  /\ forall s,
      Match (mkMatcher (Some (asProvider s)))
            (mkRequest ("[" ++ (h ++ "%" ++ zn) ++ "]:" ++ port))
      = Match (mkMatcher (Some (asProvider s)))
              (mkRequest ("[" ++ h ++ "]:" ++ port)).
Proof.
  intros Hp Ho Hc Hzo Hzc Hpc Hpo Hpcl.
  assert (Hho : IndexByteString (h ++ "%" ++ zn) "[" = None).
  { apply index_app_both_none; [exact Ho|]. simpl. rewrite Hzo.
    reflexivity. }
  assert (Hhc : IndexByteString (h ++ "%" ++ zn) "]" = None).
  { apply index_app_both_none; [exact Hc|]. simpl. rewrite Hzc.
    reflexivity. }
  assert (H1 : parseIPZoneFromString ("[" ++ (h ++ "%" ++ zn) ++ "]:" ++ port)
               = ParseAddr h).
  { unfold parseIPZoneFromString.
    rewrite (proj1 (SplitHostPort_of_joined (h ++ "%" ++ zn) port
                      Hho Hhc Hpc Hpo Hpcl)).
    unfold Cut. rewrite (index_app_none "%" h _ Hp). simpl.
    rewrite Nat.add_0_r, take_length_app. reflexivity. }
  assert (H2 : parseIPZoneFromString ("[" ++ h ++ "]:" ++ port)
               = ParseAddr h).
  { unfold parseIPZoneFromString.
    rewrite (proj1 (SplitHostPort_of_joined h port Ho Hc Hpc Hpo Hpcl)).
    unfold Cut. rewrite Hp. reflexivity. }
  split; [exact H1|]. split; [exact H2|].
  intros s. apply Match_depends_on_parsed_address. cbn [RemoteAddr].
  rewrite H1, H2. reflexivity.
Qed.

Lemma bracketed_zone_and_port_are_discarded_witness :
  parseIPZoneFromString ("[" ++ ("fe80::1" ++ "%" ++ "eth0") ++ "]:" ++ "443")
  = ParseAddr "fe80::1".
Proof.
  apply (bracketed_zone_and_port_are_discarded "fe80::1" "eth0" "443");
    reflexivity.
Defined.
